(** * The status-notice engine of azael-site

    A shallow embedding of the [useStatusAlert] composable
    (parser, schedule predicates, label classifier, fetcher, dismissal
    store) and of the two [StatusAlert] components that select what the
    banner presents, followed by the properties proved about them. *)

From Stdlib Require Import List ZArith NArith Lia Bool String Ascii DecimalString.
From Stdlib Require Import Permutation.
Import ListNotations.

Set Implicit Arguments.

(* ===================================================================== *)
(** * JavaScript strings and the built-ins the composable calls *)
(* ===================================================================== *)

Module JS.

(** A JavaScript string is a sequence of UTF-16 code units. *)
Definition char := N.
Definition str := list char.

(** A string literal of the source (ASCII only) as code units. *)
Definition lit (s : string) : str :=
  List.map N_of_ascii (list_ascii_of_string s).

Fixpoint str_eqb (a b : str) : bool :=
  match a, b with
  | [], [] => true
  | x :: a', y :: b' => N.eqb x y && str_eqb a' b'
  | _, _ => false
  end.

(** LineTerminator: LF, CR, LS, PS. *)
Definition isLineTerminator (c : char) : bool :=
  (N.eqb c 10 || N.eqb c 13 || N.eqb c 8232 || N.eqb c 8233)%bool.

(** What [\s] matches and what [trim] strips: WhiteSpace and
    LineTerminator code points. *)
Definition isWhiteSpace (c : char) : bool :=
  (N.eqb c 9 || N.eqb c 11 || N.eqb c 12 || N.eqb c 32 || N.eqb c 160
   || N.eqb c 5760 || (N.leb 8192 c && N.leb c 8202)
   || N.eqb c 8239 || N.eqb c 8287 || N.eqb c 12288 || N.eqb c 65279
   || isLineTerminator c)%bool.

(** What [.] matches (no [s] flag): anything but a line terminator. *)
Definition dot (c : char) : bool := negb (isLineTerminator c).

(** What [[\s\S]] matches: every code unit. *)
Definition anyChar (c : char) : bool := true.

Fixpoint takeWhile (p : char -> bool) (s : str) : str :=
  match s with
  | c :: s' => if p c then c :: takeWhile p s' else []
  | [] => []
  end.

Fixpoint dropWhile (p : char -> bool) (s : str) : str :=
  match s with
  | c :: s' => if p c then dropWhile p s' else s
  | [] => []
  end.

(** [String.prototype.trim] and its two halves. *)
Definition trimStart (s : str) : str := dropWhile isWhiteSpace s.
Definition trimEnd (s : str) : str := rev (dropWhile isWhiteSpace (rev s)).
Definition trim (s : str) : str := trimEnd (trimStart s).

(** [s.split(sep)] for a one-character separator: the empty string
    splits into one empty segment, and no segment is dropped. *)
Fixpoint split (sep : char) (s : str) : list str :=
  match s with
  | [] => [[]]
  | c :: s' =>
      if N.eqb c sep then [] :: split sep s'
      else match split sep s' with
           | seg :: segs => (c :: seg) :: segs
           | [] => [[c]]
           end
  end.

(** [segs.join(sep)]. *)
Fixpoint join (sep : char) (segs : list str) : str :=
  match segs with
  | [] => []
  | [seg] => seg
  | seg :: segs' => seg ++ sep :: join sep segs'
  end.

(** [Array.prototype.includes] on an array of strings, of numbers. *)
Definition includesStr (l : list str) (x : str) : bool :=
  existsb (str_eqb x) l.
Definition includesNum (l : list Z) (x : Z) : bool :=
  existsb (Z.eqb x) l.

(** ** Regular expressions

    The backtracking matcher of the language, in continuation-passing
    style: each combinator takes what must match after it. A starred
    class hands the text it consumed to its continuation, which is how a
    capture group is read off. *)

Section Matcher.
Variable A : Type.

(** A literal. *)
Fixpoint literal (p : str) (k : str -> option A) (s : str) : option A :=
  match p with
  | [] => k s
  | c :: p' =>
      match s with
      | d :: s' => if N.eqb c d then literal p' k s' else None
      | [] => None
      end
  end.

(** [cls*]: greedy, the longest run first, giving characters back
    while the continuation fails. *)
Fixpoint star (cls : char -> bool) (k : str -> str -> option A)
         (s : str) : option A :=
  match s with
  | c :: s' =>
      if cls c then
        match star cls (fun m r => k (c :: m) r) s' with
        | Some a => Some a
        | None => k [] s
        end
      else k [] s
  | [] => k [] s
  end.

(** [cls*?]: lazy, the shortest run first. *)
Fixpoint starLazy (cls : char -> bool) (k : str -> str -> option A)
         (s : str) : option A :=
  match k [] s with
  | Some a => Some a
  | None =>
      match s with
      | c :: s' =>
          if cls c then starLazy cls (fun m r => k (c :: m) r) s' else None
      | [] => None
      end
  end.

(** [cls+], greedy. *)
Definition plus (cls : char -> bool) (k : str -> str -> option A)
           (s : str) : option A :=
  match s with
  | c :: s' =>
      if cls c then star cls (fun m r => k (c :: m) r) s' else None
  | [] => None
  end.

(** An unanchored match: the pattern [m] is tried at every index from
    the left; the result carries the text before the match. *)
Fixpoint search (m : str -> option A) (s : str) : option (str * A) :=
  match m s with
  | Some a => Some ([], a)
  | None =>
      match s with
      | c :: s' =>
          match search m s' with
          | Some (pre, a) => Some (c :: pre, a)
          | None => None
          end
      | [] => None
      end
  end.
End Matcher.

(** Truthiness of an object reference that may be [null]. *)
Definition notNull (A : Type) (o : option A) : bool :=
  match o with Some _ => true | None => false end.

(** [Date]: the time value is a number of milliseconds or NaN. *)
Inductive Date : Type :=
| InvalidDate
| Instant (ms : Z).

(** [a <= b] and [a < b] on time values: false when either is NaN. *)
Definition date_leb (a b : Date) : bool :=
  match a, b with
  | Instant x, Instant y => Z.leb x y
  | _, _ => false
  end.
Definition date_ltb (a b : Date) : bool :=
  match a, b with
  | Instant x, Instant y => Z.ltb x y
  | _, _ => false
  end.

(** The two built-ins whose result depends on the engine and its Unicode
    tables: [new Date(string)] and [String.prototype.toLowerCase]. *)
Class Host : Type := {
  Date_parse : str -> Date;
  toLowerCase : str -> str
}.

End JS.
Import JS.

(* ===================================================================== *)
(** * The composable [useStatusAlert] *)
(* ===================================================================== *)

Module UseStatusAlert.

Record Label : Type := {
  label_id : Z;
  name : str;
  color : str
}.

Record StatusIssue : Type := {
  id : Z;
  number : Z;
  title : str;
  body : str;
  html_url : str;
  state : str;
  labels : list Label;
  created_at : str;
  updated_at : str
}.

(** An optional field is [None] while the property is not set. A set
    [start] or [end] holds a [Date] object, valid or not. *)
Record ParsedStatusInfo : Type := {
  start : option Date;
  end_ : option Date;
  expectedDown : option (list str);
  expectedDegraded : option (list str);
  description : str
}.

(** ** parseIssueBody *)

(** [body.match(/<!--\s*([\s\S]*?)\s*-->/)]: [None] for [null], else
    capture group 1. *)
Definition commentMatch (body : str) : option str :=
  option_map snd
    (search
       (literal (lit "<!--")
          (star isWhiteSpace (fun _ =>
           starLazy anyChar (fun g =>
           star isWhiteSpace (fun _ =>
           literal (lit "-->") (fun _ => Some g))))))
       body).

(** [metadata.match(/key\s*(.+)/)] for the four patterns
    [/start:\s*(.+)/], [/end:\s*(.+)/], [/expectedDown:\s*(.+)/] and
    [/expectedDegraded:\s*(.+)/]: [None] for [null], else group 1. *)
Definition keyMatch (key : str) (metadata : str) : option str :=
  option_map snd
    (search
       (literal key
          (star isWhiteSpace (fun _ =>
           plus dot (fun g _ => Some g))))
       metadata).

(** [body.replace(/<!--[\s\S]*?-->\s*/, '')]: the first match is cut
    out; without a match the string is returned as it is. *)
Definition removeComment (body : str) : str :=
  match search
          (literal (lit "<!--")
             (starLazy anyChar (fun _ =>
              literal (lit "-->")
                (star isWhiteSpace (fun _ rest => Some rest)))))
          body
  with
  | Some (pre, rest) => pre ++ rest
  | None => body
  end.

Definition comma : char := 44%N.

(** [v.trim().split(',').map(s => s.trim())] *)
Definition serviceList (v : str) : list str :=
  List.map trim (split comma (trim v)).

Definition parseIssueBody `{Host} (body : str) : ParsedStatusInfo :=
  match commentMatch body with
  | Some metadata =>
      {| start :=
           option_map (fun v => Date_parse (trim v))
                      (keyMatch (lit "start:") metadata);
         end_ :=
           option_map (fun v => Date_parse (trim v))
                      (keyMatch (lit "end:") metadata);
         expectedDown :=
           option_map serviceList (keyMatch (lit "expectedDown:") metadata);
         expectedDegraded :=
           option_map serviceList
                      (keyMatch (lit "expectedDegraded:") metadata);
         description := trim (removeComment body) |}
  | None =>
      {| start := None; end_ := None;
         expectedDown := None; expectedDegraded := None;
         description := body |}
  end.

(** ** Schedule predicates

    [now] is the reading of the clock, [new Date()], which is always a
    valid instant. A [Date] object is truthy whether valid or not. *)

Definition isActiveSchedule (now : Z) (parsedInfo : ParsedStatusInfo) : bool :=
  match start parsedInfo, end_ parsedInfo with
  | Some s, Some e =>
      date_leb s (Instant now) && date_leb (Instant now) e
  | _, _ => true
  end.

Definition isUpcoming (now : Z) (parsedInfo : ParsedStatusInfo) : bool :=
  match start parsedInfo with
  | Some s => date_ltb (Instant now) s
  | None => false
  end.

(** ** Labels *)

Inductive AlertType : Type := maintenance | status | info.

Definition labelNames `{Host} (ls : list Label) : list str :=
  List.map (fun l => toLowerCase (name l)) ls.

Definition getAlertType `{Host} (ls : list Label) : AlertType :=
  if includesStr (labelNames ls) (lit "maintenance") then maintenance
  else if includesStr (labelNames ls) (lit "status") then status
  else info.

Definition systemLabels : list str :=
  [lit "status"; lit "maintenance"; lit "bug"; lit "enhancement";
   lit "help wanted"; lit "question"].

Definition getAffectedServicesFromLabels `{Host} (ls : list Label)
  : list str :=
  List.map name
    (List.filter (fun l => negb (includesStr systemLabels
                                   (toLowerCase (name l)))) ls).

(** ** State

    The refs of the composable, and the item [dismissedAlerts] of the
    session storage: [None] while the key is not set, else the array of
    ids that its JSON text encodes. *)
Record State : Type := {
  issues : list StatusIssue;
  isLoading : bool;
  error : option str;
  isDismissed : bool;
  sessionStorage : option (list Z)
}.

Definition set_issues (v : list StatusIssue) (st : State) : State :=
  {| issues := v; isLoading := isLoading st; error := error st;
     isDismissed := isDismissed st; sessionStorage := sessionStorage st |}.
Definition set_isLoading (v : bool) (st : State) : State :=
  {| issues := issues st; isLoading := v; error := error st;
     isDismissed := isDismissed st; sessionStorage := sessionStorage st |}.
Definition set_error (v : option str) (st : State) : State :=
  {| issues := issues st; isLoading := isLoading st; error := v;
     isDismissed := isDismissed st; sessionStorage := sessionStorage st |}.
Definition set_isDismissed (v : bool) (st : State) : State :=
  {| issues := issues st; isLoading := isLoading st; error := error st;
     isDismissed := v; sessionStorage := sessionStorage st |}.
Definition set_sessionStorage (v : option (list Z)) (st : State) : State :=
  {| issues := issues st; isLoading := isLoading st; error := error st;
     isDismissed := isDismissed st; sessionStorage := v |}.

(** ** fetchStatusIssues *)

(** A thrown value: an [Error] with its message, or anything else. *)
Inductive Thrown : Type :=
| ErrorObject (message : str)
| OtherValue.

(** What [response.json()] settles with. *)
Inductive Payload : Type :=
| JsonRejects (e : Thrown)
    (** the body is not JSON text *)
| JsonNull (typeError : str)
    (** the value [null]; reading [data.items] throws a [TypeError]
        with this message *)
| JsonNoItems
    (** any other value whose [items] is missing or falsy *)
| JsonItems (items : list StatusIssue).
    (** a value whose [items] is an array of notices, which is what the
        type of [issues] takes a truthy [items] to be *)

(** What [fetch(url, ...)] settles with. *)
Inductive FetchOutcome : Type :=
| FetchRejects (e : Thrown)
| Response (ok : bool) (status : Z) (payload : Payload).

(** [String(n)] for an integer. *)
Definition numberToString (n : Z) : str :=
  lit (DecimalString.NilZero.string_of_int (Z.to_int n)).

(** The [catch] block. *)
Definition catchError (err : Thrown) (st : State) : State :=
  set_error
    (Some match err with
          | ErrorObject message => message
          | OtherValue => lit "Failed to fetch status"
          end)
    st.

(** The [try] block, from the request to the assignment of [issues]. *)
Definition tryFetch (o : FetchOutcome) (st : State) : State :=
  match o with
  | FetchRejects e => catchError e st
  | Response ok code payload =>
      if negb ok then
        catchError
          (ErrorObject (lit "GitHub API error: " ++ numberToString code)) st
      else
        match payload with
        | JsonRejects e => catchError e st
        | JsonNull typeError => catchError (ErrorObject typeError) st
        | JsonNoItems => set_issues [] st
        | JsonItems items => set_issues items st
        end
  end.

Definition fetchStatusIssues (o : FetchOutcome) (st : State) : State :=
  set_isLoading false
    (tryFetch o (set_error None (set_isLoading true st))).

(** ** fetchStatusIssues on untyped data

    [issues] is declared as an array of notices, and [Payload] follows
    that type. The code checks nothing: the assignment
    [issues.value = data.items || []] stores whatever truthy value
    [data.items] is. The definitions below follow the values; on
    payloads of the declared type they are the definitions above. *)

(** The kinds of truthy JSON value that are not an array of notice
    records. *)
Inductive Foreign : Type :=
| ForeignTrue
| ForeignNumber
| ForeignString
| ForeignObject
| ForeignArray.

(** What the ref [issues] holds. *)
Inductive IssuesValue : Type :=
| Notices (l : list StatusIssue)
| NotNotices (v : Foreign).

Record RawState : Type := {
  rawIssues : IssuesValue;
  rawIsLoading : bool;
  rawError : option str;
  rawIsDismissed : bool;
  rawSessionStorage : option (list Z)
}.

(** What [response.json()] settles with, every JSON value included. *)
Inductive RawPayload : Type :=
| RawRejects (e : Thrown)
    (** the body is not JSON text *)
| RawNull (typeError : str)
    (** the value [null]; reading [data.items] throws a [TypeError]
        with this message *)
| RawNoItems
    (** any other value whose [items] is missing or falsy *)
| RawItems (items : IssuesValue).
    (** any other value, by its truthy [items] *)

Inductive RawOutcome : Type :=
| RawFetchRejects (e : Thrown)
| RawResponse (ok : bool) (status : Z) (payload : RawPayload).

Definition rawCatchError (err : Thrown) (rs : RawState) : RawState :=
  {| rawIssues := rawIssues rs; rawIsLoading := rawIsLoading rs;
     rawError :=
       Some match err with
            | ErrorObject message => message
            | OtherValue => lit "Failed to fetch status"
            end;
     rawIsDismissed := rawIsDismissed rs;
     rawSessionStorage := rawSessionStorage rs |}.

Definition rawSetIssues (v : IssuesValue) (rs : RawState) : RawState :=
  {| rawIssues := v; rawIsLoading := rawIsLoading rs;
     rawError := rawError rs; rawIsDismissed := rawIsDismissed rs;
     rawSessionStorage := rawSessionStorage rs |}.

Definition rawTryFetch (o : RawOutcome) (rs : RawState) : RawState :=
  match o with
  | RawFetchRejects e => rawCatchError e rs
  | RawResponse ok code payload =>
      if negb ok then
        rawCatchError
          (ErrorObject (lit "GitHub API error: " ++ numberToString code)) rs
      else
        match payload with
        | RawRejects e => rawCatchError e rs
        | RawNull typeError => rawCatchError (ErrorObject typeError) rs
        | RawNoItems => rawSetIssues (Notices []) rs
        | RawItems items => rawSetIssues items rs
        end
  end.

Definition fetchStatusIssuesRaw (o : RawOutcome) (rs : RawState) : RawState :=
  let started :=
    {| rawIssues := rawIssues rs; rawIsLoading := true; rawError := None;
       rawIsDismissed := rawIsDismissed rs;
       rawSessionStorage := rawSessionStorage rs |} in
  let tried := rawTryFetch o started in
  {| rawIssues := rawIssues tried; rawIsLoading := false;
     rawError := rawError tried; rawIsDismissed := rawIsDismissed tried;
     rawSessionStorage := rawSessionStorage tried |}.

(** A state, a payload and an outcome of the declared type, as untyped
    ones. *)
Definition rawState (st : State) : RawState :=
  {| rawIssues := Notices (issues st); rawIsLoading := isLoading st;
     rawError := error st; rawIsDismissed := isDismissed st;
     rawSessionStorage := sessionStorage st |}.

Definition rawPayload (p : Payload) : RawPayload :=
  match p with
  | JsonRejects e => RawRejects e
  | JsonNull typeError => RawNull typeError
  | JsonNoItems => RawNoItems
  | JsonItems items => RawItems (Notices items)
  end.

Definition rawOutcome (o : FetchOutcome) : RawOutcome :=
  match o with
  | FetchRejects e => RawFetchRejects e
  | Response ok code payload => RawResponse ok code (rawPayload payload)
  end.

(** ** Dismissal *)

(** [JSON.parse(sessionStorage.getItem('dismissedAlerts') || '[]')] *)
Definition dismissedAlerts (st : State) : list Z :=
  match sessionStorage st with
  | Some l => l
  | None => []
  end.

Definition dismissAlert (issueId : Z) (st : State) : State :=
  set_isDismissed true
    (if negb (includesNum (dismissedAlerts st) issueId)
     then set_sessionStorage (Some (dismissedAlerts st ++ [issueId])) st
     else st).

Definition isAlertDismissed (st : State) (issueId : Z) : bool :=
  includesNum (dismissedAlerts st) issueId.

Definition getActiveIssue (st : State) : option StatusIssue :=
  List.find (fun issue => negb (isAlertDismissed st (id issue))) (issues st).

Definition getAllActiveIssues (st : State) : list StatusIssue :=
  List.filter (fun issue => negb (isAlertDismissed st (id issue)))
              (issues st).

End UseStatusAlert.

(* ===================================================================== *)
(** * The [StatusAlert] component, single-issue variant *)
(* ===================================================================== *)

(** A computed binding of a component runs its getter when it is first
    read and keeps what the getter returned; it runs the getter again
    only after [issues] is assigned, the one reactive value that the
    getters read. Session storage and the clock are not reactive. Each
    binding is written below as its getter: a function of the state,
    and of the clock, that a run reads. What a mounted component holds
    in its bindings is then given by [Instance]. *)

(** What the banner shows while it is on screen: its type, the notices
    behind it (those that the dismiss button dismisses) and whether it
    is styled as an upcoming maintenance. *)
Record Banner : Type := {
  bannerType : UseStatusAlert.AlertType;
  bannerIssues : list UseStatusAlert.StatusIssue;
  bannerUpcoming : bool
}.

(** A mounted component: the refs of its composable together with the
    session storage as they are now, the storage item and the clock as
    the getters read them when the bindings were last run, and the ref
    [isVisible]. Only [isMaintenanceUpcoming] reads the clock. Only a
    click on the banner writes the storage item, and the banner is on
    screen only after the bindings that read the item have been run, so
    these all read the same item. *)
Record Instance : Type := {
  refs : UseStatusAlert.State;
  seenStorage : option (list Z);
  seenClock : Z;
  isVisible : bool
}.

(** The state that the getters read: no assignment to [issues] since,
    so the notices of now, with the storage item of then. *)
Definition seen (i : Instance) : UseStatusAlert.State :=
  UseStatusAlert.set_sessionStorage (seenStorage i) (refs i).

(** The bindings run again, at clock [now]: after an assignment to
    [issues], or in a component newly mounted on the same refs. *)
Definition evaluate (now : Z) (i : Instance) : Instance :=
  {| refs := refs i;
     seenStorage := UseStatusAlert.sessionStorage (refs i);
     seenClock := now;
     isVisible := isVisible i |}.

Module StatusAlertSingle.
Import UseStatusAlert.

Section Component.
Context `{Host}.

Definition activeIssue (st : State) : option StatusIssue :=
  getActiveIssue st.

(** [body || ''] is [body] for a string. *)
Definition parsedInfo (st : State) : option ParsedStatusInfo :=
  match activeIssue st with
  | None => None
  | Some issue => Some (parseIssueBody (body issue))
  end.

Definition alertType (st : State) : AlertType :=
  match activeIssue st with
  | None => info
  | Some issue => getAlertType (labels issue)
  end.

Definition isMaintenanceUpcoming (now : Z) (st : State) : bool :=
  match parsedInfo st, alertType st with
  | Some p, maintenance => isUpcoming now p
  | _, _ => false
  end.

Definition statusAffectedServices (st : State) : list str :=
  match alertType st, activeIssue st with
  | status, Some issue => getAffectedServicesFromLabels (labels issue)
  | _, _ => []
  end.

(** What the getters give the template to show, run at state [st] and
    clock [now]; [rendered] adds the rest of the [v-if]. *)
Definition banner (now : Z) (st : State) : option Banner :=
  match activeIssue st with
  | Some issue =>
      Some {| bannerType := alertType st;
              bannerIssues := [issue];
              bannerUpcoming := isMaintenanceUpcoming now st |}
  | None => None
  end.
(** The guard of [onMounted] and of [checkAndShowAlert]:
    [activeIssue.value && !isAlertDismissed(activeIssue.value.id)]. *)
Definition showGuard (st : State) : bool :=
  match activeIssue st with
  | Some issue => negb (isAlertDismissed st (id issue))
  | None => false
  end.
(** The template: [v-if="activeIssue && isVisible && !isLoading"], over
    what the bindings hold. *)
Definition rendered (i : Instance) : option Banner :=
  if isVisible i && negb (isLoading (refs i))
  then banner (seenClock i) (seen i) else None.

(** [handleDismiss] with the timer it sets, nothing coming between:
    the id it dismisses is read from the binding [activeIssue]. *)
Definition handleDismiss (i : Instance) : Instance :=
  match activeIssue (seen i) with
  | Some issue =>
      {| refs := dismissAlert (id issue) (refs i);
         seenStorage := seenStorage i;
         seenClock := seenClock i;
         isVisible := false |}
  | None => i
  end.
End Component.

End StatusAlertSingle.

(* ===================================================================== *)
(** * The [StatusAlert] component, aggregated variant *)
(* ===================================================================== *)

Module StatusAlertAggregated.
Import UseStatusAlert.

Section Component.
Context `{Host}.

Definition activeIssue (st : State) : option StatusIssue :=
  getActiveIssue st.

Definition allStatusIssues (st : State) : list StatusIssue :=
  List.filter
    (fun issue =>
       includesStr (labelNames (labels issue)) (lit "status")
       && negb (isAlertDismissed st (id issue)))
    (issues st).

Definition hasStatusAlert (st : State) : bool :=
  Nat.ltb 0 (List.length (allStatusIssues st)).

Definition allStatusAffectedServices (st : State)
  : list (str * str * str) :=
  List.flat_map
    (fun issue =>
       List.map (fun service => (service, title issue, html_url issue))
                (getAffectedServicesFromLabels (labels issue)))
    (allStatusIssues st).

Definition parsedInfo (st : State) : option ParsedStatusInfo :=
  match activeIssue st with
  | None => None
  | Some issue => Some (parseIssueBody (body issue))
  end.

Definition alertType (st : State) : AlertType :=
  if hasStatusAlert st then status
  else match activeIssue st with
       | None => info
       | Some issue => getAlertType (labels issue)
       end.

Definition isMaintenanceUpcoming (now : Z) (st : State) : bool :=
  match parsedInfo st, alertType st with
  | Some p, maintenance => isUpcoming now p
  | _, _ => false
  end.

(** What the getters give the template to show, run at state [st] and
    clock [now]; [rendered] adds the rest of the [v-if]. The notices
    behind the banner are those that [handleDismiss] dismisses. *)
Definition banner (now : Z) (st : State) : option Banner :=
  if hasStatusAlert st || notNull (activeIssue st) then
    Some {| bannerType := alertType st;
            bannerIssues :=
              match alertType st with
              | status => allStatusIssues st
              | _ => match activeIssue st with
                     | Some issue => [issue]
                     | None => []
                     end
              end;
            bannerUpcoming := isMaintenanceUpcoming now st |}
  else None.
(** The guard of [onMounted]:
    [(hasStatusAlert || activeIssue) &&
     (hasStatusAlert || !isAlertDismissed(activeIssue.value!.id))]. *)
Definition mountedGuard (st : State) : bool :=
  (hasStatusAlert st || notNull (activeIssue st))
  && (hasStatusAlert st
      || match activeIssue st with
         | Some issue => negb (isAlertDismissed st (id issue))
         | None => false
         end).

(** The guard of [checkAndShowAlert]: [(hasStatusAlert || activeIssue)]. *)
Definition showGuard (st : State) : bool :=
  hasStatusAlert st || notNull (activeIssue st).
(** The template:
    [v-if="(hasStatusAlert || activeIssue) && isVisible && !isLoading"],
    over what the bindings hold. *)
Definition rendered (i : Instance) : option Banner :=
  if isVisible i && negb (isLoading (refs i))
  then banner (seenClock i) (seen i) else None.

(** [handleDismiss] with the timer it sets, nothing coming between:
    the ids it dismisses are read from the bindings [alertType],
    [allStatusIssues] and [activeIssue]. *)
Definition handleDismiss (i : Instance) : Instance :=
  {| refs :=
       match alertType (seen i) with
       | status =>
           List.fold_left (fun s issue => dismissAlert (id issue) s)
                          (allStatusIssues (seen i)) (refs i)
       | _ =>
           match activeIssue (seen i) with
           | Some issue => dismissAlert (id issue) (refs i)
           | None => refs i
           end
       end;
     seenStorage := seenStorage i;
     seenClock := seenClock i;
     isVisible := false |}.
End Component.

End StatusAlertAggregated.

(* ===================================================================== *)
(** * Expressions of the templates *)
(* ===================================================================== *)

(** The collapsed view of both variants lists the first services and
    counts the rest; the expanded view of the single-issue variant
    shows the start of the description. *)

Module StatusAlertTemplate.
Import UseStatusAlert.

(** [services.slice(0, 4)] and the badge
    [v-if="services.length > 4"] with [services.length - 4]. *)
Definition statusTags (A : Type) (services : list A) : list A :=
  List.firstn 4 services.

Definition statusMore (A : Type) (services : list A) : option nat :=
  if Nat.ltb 4 (List.length services)
  then Some (List.length services - 4)%nat else None.

(** [parsedInfo?.expectedDown] of a [parsedInfo] that may be [null]. *)
Definition downOf (p : option ParsedStatusInfo) : option (list str) :=
  match p with Some q => expectedDown q | None => None end.
Definition degradedOf (p : option ParsedStatusInfo) : option (list str) :=
  match p with Some q => expectedDegraded q | None => None end.

(** [(list || [])] *)
Definition orEmpty (o : option (list str)) : list str :=
  match o with Some l => l | None => [] end.

(** [(list?.length || 0)] *)
Definition lengthOrZero (o : option (list str)) : nat :=
  match o with Some l => List.length l | None => 0%nat end.

(** [(parsedInfo?.expectedDown || []).slice(0, 2)] and the same for
    [expectedDegraded]. *)
Definition downTags (p : option ParsedStatusInfo) : list str :=
  List.firstn 2 (orEmpty (downOf p)).
Definition degradedTags (p : option ParsedStatusInfo) : list str :=
  List.firstn 2 (orEmpty (degradedOf p)).

(** The badge of the maintenance view, shown when the two lengths sum
    to more than 4, with that sum less 4. *)
Definition maintenanceMore (p : option ParsedStatusInfo) : option nat :=
  if Nat.ltb 4 (lengthOrZero (downOf p) + lengthOrZero (degradedOf p))
  then Some (lengthOrZero (downOf p) + lengthOrZero (degradedOf p) - 4)%nat
  else None.

(** The number that a badge adds to the tags. *)
Definition badge (o : option nat) : nat :=
  match o with Some n => n | None => 0%nat end.

(** What [/[#*`]/g] matches. *)
Definition isMarkup (c : char) : bool :=
  (N.eqb c 35 || N.eqb c 42 || N.eqb c 96)%bool.

(** [v-if="parsedInfo?.description"] with
    [description.replace(/[#*`]/g, '').substring(0, 250)] and the dots
    that follow it. *)
Definition descriptionPreview (p : option ParsedStatusInfo) : option str :=
  match p with
  | Some q =>
      match description q with
      | [] => None
      | d => Some (List.firstn 250
                     (List.filter (fun c => negb (isMarkup c)) d)
                   ++ lit "...")
      end
  | None => None
  end.

End StatusAlertTemplate.

(* ===================================================================== *)
(** * A host to run the model on *)
(* ===================================================================== *)

(** The concrete evaluations below need a [Host]. This one reads the
    date-time format shown in the comment of [parseIssueBody],
    [YYYY-MM-DDTHH:mm:ss] followed by [Z] or by an offset [+HH:mm] or
    [-HH:mm], and takes every other string as unparsable; it lowers the
    letters [A]-[Z]. The theorems hold for every host. *)

Module SampleHost.

Definition digit (c : char) : option Z :=
  if (N.leb 48 c && N.leb c 57)%bool then Some (Z.of_N c - 48)%Z else None.

Definition num2 (a b : char) : option Z :=
  match digit a, digit b with
  | Some x, Some y => Some (10 * x + y)%Z
  | _, _ => None
  end.

Definition num4 (a b c d : char) : option Z :=
  match num2 a b, num2 c d with
  | Some x, Some y => Some (100 * x + y)%Z
  | _, _ => None
  end.

Definition isLeap (y : Z) : bool :=
  ((y mod 4 =? 0) && (negb (y mod 100 =? 0) || (y mod 400 =? 0)))%Z.

Definition daysInMonth (y m : Z) : Z :=
  (if m =? 2 then (if isLeap y then 29 else 28)
   else if (m =? 4) || (m =? 6) || (m =? 9) || (m =? 11) then 30
   else 31)%Z.

(** Days from 1970-01-01 to the given day of the proleptic Gregorian
    calendar. *)
Definition daysFromCivil (y m d : Z) : Z :=
  (let y' := if m <=? 2 then y - 1 else y in
   let era := y' / 400 in
   let yoe := y' - era * 400 in
   let doy := (153 * (if m <=? 2 then m + 9 else m - 3) + 2) / 5 + d - 1 in
   let doe := yoe * 365 + yoe / 4 - yoe / 100 + doy in
   era * 146097 + doe - 719468)%Z.

(** The offset in minutes east of UTC. *)
Definition zone (tz : str) : option Z :=
  match tz with
  | [z] => if N.eqb z 90 then Some 0%Z else None
  | [sg; h1; h2; colon; m1; m2] =>
      match num2 h1 h2, num2 m1 m2 with
      | Some h, Some m =>
          if (N.eqb colon 58 && (h <=? 23) && (m <=? 59))%bool%Z then
            if N.eqb sg 43 then Some (60 * h + m)%Z
            else if N.eqb sg 45 then Some (- (60 * h + m))%Z
            else None
          else None
      | _, _ => None
      end
  | _ => None
  end.

Definition isoParse (s : str) : Date :=
  match s with
  | y1 :: y2 :: y3 :: y4 :: d1 :: mo1 :: mo2 :: d2 :: dd1 :: dd2 :: t
       :: h1 :: h2 :: c1 :: mi1 :: mi2 :: c2 :: s1 :: s2 :: tz =>
      match num4 y1 y2 y3 y4, num2 mo1 mo2, num2 dd1 dd2,
            num2 h1 h2, num2 mi1 mi2, num2 s1 s2, zone tz with
      | Some y, Some mo, Some dd, Some h, Some mi, Some sec, Some off =>
          if (N.eqb d1 45 && N.eqb d2 45 && N.eqb t 84
              && N.eqb c1 58 && N.eqb c2 58
              && (1 <=? mo) && (mo <=? 12)
              && (1 <=? dd) && (dd <=? daysInMonth y mo)
              && (h <=? 23) && (mi <=? 59) && (sec <=? 59))%bool%Z
          then Instant
                 ((((daysFromCivil y mo dd * 24 + h) * 60 + mi - off) * 60
                   + sec) * 1000)%Z
          else InvalidDate
      | _, _, _, _, _, _, _ => InvalidDate
      end
  | _ => InvalidDate
  end.

Definition asciiLower (s : str) : str :=
  List.map (fun c => if (N.leb 65 c && N.leb c 90)%bool then (c + 32)%N else c)
           s.

Definition host : Host :=
  {| Date_parse := isoParse; toLowerCase := asciiLower |}.

End SampleHost.

(* ===================================================================== *)
(** * Sample notices and states *)
(* ===================================================================== *)

Module Samples.
Import UseStatusAlert.

Definition label (n : string) : Label :=
  {| label_id := 0; name := lit n; color := lit "ededed" |}.

Definition notice (i : Z) (t b : string) (ls : list string) : StatusIssue :=
  {| id := i; number := i; title := lit t; body := lit b;
     html_url := lit "https://github.com/"; state := lit "open";
     labels := List.map label ls;
     created_at := lit "2026-01-20T09:00:00Z";
     updated_at := lit "2026-01-20T09:00:00Z" |}.

Definition incident : StatusIssue :=
  notice 101 "Core API outage" "core-api down" ["status"; "core-api"]%string.

(** A maintenance window from 22:30 to 23:30 on 22 January 2026,
    UTC+7. *)
Definition window : StatusIssue :=
  notice 102 "Database upgrade"
"<!--
start: 2026-01-22T22:30:00+07:00
end: 2026-01-22T23:30:00+07:00
expectedDegraded: base-api, script-license-api
-->
The database is upgraded."
    ["maintenance"]%string.

(** 23:00 on that day, inside the window; and the next day, after it. *)
Definition duringWindow : Z := 1769097600000.
Definition afterWindow : Z := 1769184000000.

(** Both schedule values unparsable. *)
Definition vague : str := lit
"<!--
start: soon
end: later
-->
Maintenance is planned.".

Definition spaced : str := lit "  hi <!-- x --> there  ".

Definition downList : str := lit
"<!--
expectedDown: a,,b
expectedDegraded:  base-api , script-license-api
-->
Outage".

Definition fresh (l : list StatusIssue) : State :=
  {| issues := l; isLoading := false; error := None;
     isDismissed := false; sessionStorage := None |}.

(** A component on screen whose bindings were run at clock [now] on the
    fetched list [l], nothing dismissed. *)
Definition onScreen (now : Z) (l : list StatusIssue) : Instance :=
  {| refs := fresh l; seenStorage := None; seenClock := now;
     isVisible := true |}.

End Samples.

(* ===================================================================== *)
(** * Vocabulary of the statements *)
(* ===================================================================== *)

(** [p] occurs in [s]. *)
Definition occurs (p s : str) : Prop :=
  exists a b, s = a ++ p ++ b.

(** [s] is [pre ++ p ++ post] and no occurrence of [p] in [s] starts
    further left. *)
Definition leftmost (p pre post s : str) : Prop :=
  s = pre ++ p ++ post /\
  forall a b, s = a ++ p ++ b -> (List.length pre <= List.length a)%nat.

(** The delimiters of the metadata block. *)
Definition openTag : str := lit "<!--".
Definition closeTag : str := lit "-->".

(** [body] holds an opening delimiter with a closing one after it. *)
Definition hasCommentBlock (body : str) : Prop :=
  exists a b c, body = a ++ openTag ++ b ++ closeTag ++ c.

(** [r] keeps the elements of [l] it has in the order of [l]. *)
Inductive Subseq (A : Type) : list A -> list A -> Prop :=
| Subseq_nil : Subseq [] []
| Subseq_keep x r l : Subseq r l -> Subseq (x :: r) (x :: l)
| Subseq_skip x r l : Subseq r l -> Subseq r (x :: l).

(** No white space at either end. *)
Definition trimmed (s : str) : Prop :=
  trim s = s.

(** The fetch outcomes that end in the [catch] block: the request
    rejects, the status is not a success, the body is not JSON, or the
    value is [null]. *)
Definition fetchFails (o : UseStatusAlert.FetchOutcome) : bool :=
  match o with
  | UseStatusAlert.FetchRejects _ => true
  | UseStatusAlert.Response ok _ payload =>
      negb ok
      || match payload with
         | UseStatusAlert.JsonRejects _ => true
         | UseStatusAlert.JsonNull _ => true
         | _ => false
         end
  end.

(** A notice carries the tag [t], compared in lower case. *)
Definition tagged `{Host} (t : string) (issue : UseStatusAlert.StatusIssue)
  : bool :=
  includesStr (UseStatusAlert.labelNames (UseStatusAlert.labels issue))
              (lit t).

(** The leftmost occurrence of [p] in [s], by search: the text before it
    and the text after it. *)
Definition cut (p s : str) : option (str * str) :=
  search (literal p (fun r => Some r)) s.

(** [s] does not start with white space. *)
Definition cleanStart (s : str) : Prop :=
  match s with c :: _ => isWhiteSpace c = false | [] => True end.

(** The four optional fields of a parse result. *)
Definition fields (p : UseStatusAlert.ParsedStatusInfo)
  : option Date * option Date * option (list str) * option (list str) :=
  (UseStatusAlert.start p, UseStatusAlert.end_ p,
   UseStatusAlert.expectedDown p, UseStatusAlert.expectedDegraded p).

(* ===================================================================== *)
(** * Lemmas on strings and on the matcher *)
(* ===================================================================== *)

Section StringLemmas.

Lemma takeWhile_dropWhile (p : char -> bool) (s : str) :
takeWhile p s ++ dropWhile p s = s.
Proof.
induction s as [|c s IH]; simpl; [reflexivity|].
destruct (p c); simpl; [now rewrite IH | reflexivity].
Qed.

Lemma takeWhile_all (p : char -> bool) (s : str) :
forallb p (takeWhile p s) = true.
Proof.
induction s as [|c s IH]; simpl; [reflexivity|].
destruct (p c) eqn:E; simpl; [now rewrite E | reflexivity].
Qed.

Lemma dropWhile_app_stop (p : char -> bool) (a b : str) (c : char) :
p c = false -> dropWhile p (a ++ c :: b) = dropWhile p a ++ c :: b.
Proof.
intros Hc. induction a as [|x a IH]; simpl.
- now rewrite Hc.
- destruct (p x); [exact IH | reflexivity].
Qed.

Lemma dropWhile_all (p : char -> bool) (a b : str) :
forallb p a = true -> dropWhile p (a ++ b) = dropWhile p b.
Proof.
induction a as [|x a IH]; simpl; [reflexivity|].
intros H. apply andb_true_iff in H as [Hx Ha]. now rewrite Hx, IH.
Qed.

Lemma takeWhile_all_stop (p : char -> bool) (a b : str) :
forallb p a = true ->
match b with [] => True | c :: _ => p c = false end ->
takeWhile p (a ++ b) = a.
Proof.
induction a as [|x a IH]; simpl; intros Ha Hb.
- destruct b as [|c b]; simpl; [reflexivity | now rewrite Hb].
- apply andb_true_iff in Ha as [Hx Ha]. rewrite Hx. f_equal. now apply IH.
Qed.

Lemma dropWhile_head (p : char -> bool) (s : str) (c : char) (r : str) :
dropWhile p s = c :: r -> p c = false.
Proof.
induction s as [|x s IH]; simpl; [discriminate|].
destruct (p x) eqn:E; [exact IH|]. intros [= <- _]. exact E.
Qed.

(** A prefix of a string that starts with a run of [p] is itself in [p]
  as long as it is no longer than the run. *)
Lemma prefix_of_run (p : char -> bool) (u y z1 z2 : str) :
u ++ z1 = y ++ z2 -> forallb p u = true ->
(List.length y <= List.length u)%nat -> forallb p y = true.
Proof.
revert u. induction y as [|c y IH]; intros u E Hu Hl; [reflexivity|].
destruct u as [|d u]; simpl in *; [lia|].
injection E as -> E. apply andb_true_iff in Hu as [Hd Hu].
rewrite Hd. simpl. apply (IH u); [exact E | exact Hu | lia].
Qed.

Lemma forallb_last (p : char -> bool) (y : str) (c : char) :
forallb p (y ++ [c]) = true -> p c = true.
Proof.
rewrite forallb_app. simpl. intros H.
apply andb_true_iff in H as [_ H]. now rewrite andb_true_r in H.
Qed.

(** ** trim *)

Lemma trimEnd_split (s : str) :
exists w, s = trimEnd s ++ w /\ forallb isWhiteSpace w = true.
Proof.
unfold trimEnd. exists (rev (takeWhile isWhiteSpace (rev s))). split.
- rewrite <- rev_app_distr, takeWhile_dropWhile. now rewrite rev_involutive.
- rewrite forallb_forall. intros x Hx. apply in_rev in Hx.
  pose proof (takeWhile_all isWhiteSpace (rev s)) as H.
  rewrite forallb_forall in H. now apply H.
Qed.

Lemma trimEnd_last (s y : str) (c : char) :
trimEnd s = y ++ [c] -> isWhiteSpace c = false.
Proof.
unfold trimEnd. intros E.
apply (f_equal (@rev char)) in E.
rewrite rev_involutive, rev_app_distr in E. simpl in E.
now apply dropWhile_head in E.
Qed.

Lemma trimStart_split (s : str) :
exists w, s = w ++ trimStart s /\ forallb isWhiteSpace w = true.
Proof.
exists (takeWhile isWhiteSpace s). split.
- symmetry. apply takeWhile_dropWhile.
- apply takeWhile_all.
Qed.

Lemma dropWhile_idem (p : char -> bool) (s : str) :
dropWhile p (dropWhile p s) = dropWhile p s.
Proof.
induction s as [|c s IH]; simpl; [reflexivity|].
destruct (p c) eqn:E; [exact IH|]. simpl. now rewrite E.
Qed.

Lemma lineTerminator_whiteSpace (c : char) :
isLineTerminator c = true -> isWhiteSpace c = true.
Proof.
unfold isWhiteSpace. intros ->. now rewrite !orb_true_r.
Qed.

Lemma nonspace_dot (c : char) : isWhiteSpace c = false -> dot c = true.
Proof.
unfold dot. intros H. destruct (isLineTerminator c) eqn:E; [|reflexivity].
apply lineTerminator_whiteSpace in E. congruence.
Qed.

End StringLemmas.

Section MatcherLemmas.
Variable A : Type.
Implicit Types (k : str -> option A) (kk : str -> str -> option A).

Lemma literal_app p k r : literal p k (p ++ r) = k r.
Proof.
  induction p as [|c p IH]; simpl; [reflexivity|].
  now rewrite N.eqb_refl.
Qed.

Lemma literal_Some p k s a :
  literal p k s = Some a -> exists r, s = p ++ r /\ k r = Some a.
Proof.
  revert s. induction p as [|c p IH]; simpl; intros s H.
  - now exists s.
  - destruct s as [|d s]; [discriminate|].
    destruct (N.eqb c d) eqn:E; [|discriminate].
    apply N.eqb_eq in E as ->.
    destruct (IH _ H) as (r & -> & Hr). now exists r.
Qed.

Lemma literal_None p k s :
  (forall r, s <> p ++ r) -> literal p k s = None.
Proof.
  intros H. destruct (literal p k s) eqn:E; [|reflexivity].
  apply literal_Some in E as (r & -> & _). now destruct (H r).
Qed.

(** The unanchored search stops at the first index where the pattern
    matches. *)
Lemma search_first (m : str -> option A) pre t a :
  m t = Some a ->
  (forall x y, pre = x ++ y -> y <> [] -> m (y ++ t) = None) ->
  search m (pre ++ t) = Some (pre, a).
Proof.
  intros Ht. induction pre as [|c pre IH]; intros Hpre.
  - destruct t; simpl; now rewrite Ht.
  - pose proof (Hpre [] (c :: pre) eq_refl ltac:(discriminate)) as E.
    simpl in *. rewrite E.
    rewrite IH; [reflexivity|].
    intros x y -> Hy. now apply (Hpre (c :: x) y).
Qed.

Lemma search_Some (m : str -> option A) s pre a :
  search m s = Some (pre, a) -> exists t, s = pre ++ t /\ m t = Some a.
Proof.
  revert pre. induction s as [|c s IH]; simpl; intros pre.
  - destruct (m []) eqn:E; [|discriminate].
    intros [= <- <-]. now exists [].
  - destruct (m (c :: s)) eqn:E.
    + intros [= <- <-]. now exists (c :: s).
    + destruct (search m s) as [[pre' a']|] eqn:Es; [|discriminate].
      intros [= <- <-]. destruct (IH _ eq_refl) as (t & -> & Ht).
      now exists t.
Qed.

Lemma search_None (m : str -> option A) s :
  (forall x t, s = x ++ t -> m t = None) -> search m s = None.
Proof.
  intros H. destruct (search m s) as [[pre a]|] eqn:E; [|reflexivity].
  apply search_Some in E as (t & -> & Ht).
  rewrite (H pre t eq_refl) in Ht. discriminate.
Qed.

Lemma star_ext cls kk kk' s :
  (forall g r, kk g r = kk' g r) -> star cls kk s = star cls kk' s.
Proof.
  revert kk kk'. induction s as [|c s IH]; simpl; intros kk kk' H.
  - apply H.
  - rewrite (IH (fun m r => kk (c :: m) r) (fun m r => kk' (c :: m) r))
      by (intros; apply H).
    now rewrite H.
Qed.

Lemma starLazy_ext cls kk kk' s :
  (forall g r, kk g r = kk' g r) -> starLazy cls kk s = starLazy cls kk' s.
Proof.
  revert kk kk'. induction s as [|c s IH]; simpl; intros kk kk' H.
  - now rewrite H.
  - rewrite H.
    now rewrite (IH (fun m r => kk (c :: m) r) (fun m r => kk' (c :: m) r))
      by (intros; apply H).
Qed.

(** A greedy star whose continuation accepts the longest run stops
    there. *)
Lemma star_max cls kk s a :
  kk (takeWhile cls s) (dropWhile cls s) = Some a ->
  star cls kk s = Some a.
Proof.
  revert kk. induction s as [|c s IH]; simpl; intros kk H; [exact H|].
  destruct (cls c); [|exact H].
  now rewrite (IH (fun m r => kk (c :: m) r) H).
Qed.

Lemma star_Some cls kk s a :
  star cls kk s = Some a ->
  exists g r, s = g ++ r /\ forallb cls g = true /\ kk g r = Some a.
Proof.
  revert kk. induction s as [|c s IH]; simpl; intros kk H.
  - now exists [], [].
  - destruct (cls c) eqn:E; [|now exists [], (c :: s)].
    destruct (star cls (fun m r => kk (c :: m) r) s) eqn:Es.
    + injection H as ->.
      destruct (IH _ Es) as (g & r & -> & Hg & Hk).
      exists (c :: g), r. simpl. now rewrite E, Hg.
    + now exists [], (c :: s).
Qed.

(** Giving back characters of the class never helps a literal that
    starts outside the class. *)
Lemma star_literal cls c p k kk s :
  cls c = false ->
  (forall g r, kk g r = literal (c :: p) k r) ->
  star cls kk s = literal (c :: p) k (dropWhile cls s).
Proof.
  intros Hc. revert kk. induction s as [|d s IH]; intros kk Hk.
  - simpl. apply Hk.
  - cbn [star dropWhile]. destruct (cls d) eqn:E; [|apply Hk].
    rewrite (IH (fun m r => kk (d :: m) r)) by (intros; apply Hk).
    destruct (literal (c :: p) k (dropWhile cls s)) eqn:El; [reflexivity|].
    rewrite Hk. simpl. destruct (N.eqb c d) eqn:Ecd; [|reflexivity].
    apply N.eqb_eq in Ecd. congruence.
Qed.

(** A lazy star stops at the shortest run that its continuation
    accepts. *)
Lemma starLazy_first cls kk g r a :
  forallb cls g = true ->
  kk g r = Some a ->
  (forall x y, g = x ++ y -> y <> [] -> kk x (y ++ r) = None) ->
  starLazy cls kk (g ++ r) = Some a.
Proof.
  revert kk. induction g as [|c g IH]; intros kk Hg Hk Hmin.
  - destruct r; simpl; now rewrite Hk.
  - simpl in Hg. apply andb_true_iff in Hg as [Hc Hg].
    pose proof (Hmin [] (c :: g) eq_refl ltac:(discriminate)) as E.
    simpl in *. rewrite E.
    rewrite Hc. apply IH; [exact Hg | exact Hk |].
    intros x y -> Hy. now apply (Hmin (c :: x) y).
Qed.

Lemma starLazy_Some cls kk s a :
  starLazy cls kk s = Some a ->
  exists g r, s = g ++ r /\ kk g r = Some a.
Proof.
  revert kk. induction s as [|c s IH]; simpl; intros kk H.
  - destruct (kk [] []) eqn:E; [|discriminate]. injection H as ->.
    now exists [], [].
  - destruct (kk [] (c :: s)) eqn:E.
    + injection H as ->. now exists [], (c :: s).
    + destruct (cls c); [|discriminate].
      destruct (IH _ H) as (g & r & -> & Hk). now exists (c :: g), r.
Qed.
End MatcherLemmas.

(** [(.+)] at the end of a pattern takes the rest of the line. *)
Lemma plus_dot_line (s : str) :
  plus dot (fun g _ => Some g) s
  = match s with
    | c :: _ => if dot c then Some (takeWhile dot s) else None
    | [] => None
    end.
Proof.
  destruct s as [|c s]; [reflexivity|]. simpl.
  destruct (dot c); [|reflexivity].
  now apply star_max.
Qed.

(** ** Occurrences *)

Lemma app_split_le (A : Type) (u v x y : list A) :
  u ++ x = v ++ y -> (List.length u <= List.length v)%nat ->
  exists w, v = u ++ w /\ x = w ++ y.
Proof.
  revert v. induction u as [|c u IH]; intros v E Hl.
  - now exists v.
  - destruct v as [|d v]; simpl in *; [lia|].
    injection E as -> E. destruct (IH v E ltac:(lia)) as (w & -> & ->).
    now exists w.
Qed.

Lemma prefix_dec (p s : str) :
  (exists r, s = p ++ r) \/ (forall r, s <> p ++ r).
Proof.
  revert s. induction p as [|c p IH]; intros s.
  - left. now exists s.
  - destruct s as [|d s]; [right; discriminate|].
    destruct (N.eq_dec c d) as [->|Hn].
    + destruct (IH s) as [(r & ->)|H]; [left; now exists r|].
      right. intros r [= E]. now apply (H r).
    + right. intros r [= E _]. congruence.
Qed.

Lemma leftmost_exists (p s : str) :
  occurs p s -> exists pre post, leftmost p pre post s.
Proof.
  induction s as [|c s IH]; intros (a & b & E).
  - destruct a; [|discriminate]. exists [], b. split; [exact E|].
    intros; simpl; lia.
  - destruct (prefix_dec p (c :: s)) as [(r & Er)|Hn].
    + exists [], r. split; [exact Er|]. intros; simpl; lia.
    + destruct a as [|d a]; [now destruct (Hn b)|].
      injection E as <- E.
      destruct IH as (pre & post & -> & Hmin); [now exists a, b|].
      exists (c :: pre), post. split; [reflexivity|].
      intros [|d' a'] b' E'; [now destruct (Hn b')|].
      injection E' as <- E'. simpl. apply Hmin in E'. lia.
Qed.

Lemma leftmost_earlier (p pre post s x y r : str) :
  leftmost p pre post s ->
  pre = x ++ y -> y <> [] -> y ++ p ++ post <> p ++ r.
Proof.
  intros [-> Hmin] -> Hy E.
  specialize (Hmin x r). rewrite <- app_assoc, E in Hmin.
  specialize (Hmin eq_refl). rewrite length_app in Hmin.
  destruct y; [congruence | simpl in Hmin; lia].
Qed.

Lemma forallb_anyChar (s : str) : forallb anyChar s = true.
Proof. induction s; simpl; auto. Qed.

Lemma closeTag_head : closeTag = 45%N :: lit "->".
Proof. reflexivity. Qed.

Lemma isWhiteSpace_minus : isWhiteSpace 45%N = false.
Proof. reflexivity. Qed.

Lemma dropWhile_closeTag (t : str) :
  dropWhile isWhiteSpace (closeTag ++ t) = closeTag ++ t.
Proof. reflexivity. Qed.

(** ** The two patterns on the comment block *)

Import UseStatusAlert.

Section CommentBlock.
Variables body lead after inner tail : str.
Hypothesis Hopen : leftmost openTag lead after body.
Hypothesis Hclose : leftmost closeTag inner tail after.

Lemma removeComment_leftmost :
  removeComment body = lead ++ dropWhile isWhiteSpace tail.
Proof.
  pose proof Hopen as [Eb _]. pose proof Hclose as [Ea _].
  unfold removeComment. rewrite Eb.
  erewrite search_first; [reflexivity | |].
  - fold openTag. rewrite literal_app, Ea.
    apply starLazy_first.
    + apply forallb_anyChar.
    + fold closeTag. rewrite literal_app. now apply star_max.
    + intros x y E Hy. apply literal_None. fold closeTag. intros r.
      eapply leftmost_earlier; [exact Hclose | exact E | exact Hy].
  - intros x y E Hy. apply literal_None. fold openTag. intros r.
    eapply leftmost_earlier; [exact Hopen | exact E | exact Hy].
Qed.

Lemma commentMatch_leftmost :
  commentMatch body = Some (trim inner).
Proof.
  pose proof Hopen as [Eb _]. pose proof Hclose as [Ea Hmin].
  unfold commentMatch. rewrite Eb.
  erewrite search_first; [reflexivity | |].
  - fold openTag. rewrite literal_app. apply star_max.
    destruct (trimEnd_split (trimStart inner)) as (w & Ew & Hw).
    fold (trim inner) in Ew.
    assert (Ed : dropWhile isWhiteSpace after
                 = trim inner ++ w ++ closeTag ++ tail).
    { rewrite Ea, closeTag_head, <- app_comm_cons.
      rewrite dropWhile_app_stop by apply isWhiteSpace_minus.
      fold (trimStart inner). rewrite Ew at 1. now rewrite <- app_assoc. }
    rewrite Ed.
    erewrite starLazy_ext.
    2:{ intros g r. apply star_literal with (c:=45%N) (p:=lit "->");
        [apply isWhiteSpace_minus | reflexivity]. }
    change (45%N :: lit "->") with closeTag.
    apply starLazy_first.
    + apply forallb_anyChar.
    + rewrite dropWhile_all by exact Hw.
      rewrite dropWhile_closeTag. now rewrite literal_app.
    + intros x y Exy Hy. apply literal_None. intros r Er.
      destruct (exists_last Hy) as (y' & c & ->).
      assert (Hc : isWhiteSpace c = false).
      { apply (@trimEnd_last (trimStart inner) (x ++ y')).
        fold (trim inner). rewrite Exy. now rewrite app_assoc. }
      set (z := (y' ++ [c]) ++ w ++ closeTag ++ tail) in *.
      assert (Hall : forallb isWhiteSpace (y' ++ [c]) = true).
      { destruct (trimStart_split inner) as (w0 & Ew0 & Hw0).
        apply prefix_of_run
          with (u := takeWhile isWhiteSpace z) (z1 := dropWhile isWhiteSpace z)
               (z2 := w ++ closeTag ++ tail).
        - now rewrite takeWhile_dropWhile.
        - apply takeWhile_all.
        - assert (El : after
                       = (w0 ++ x ++ takeWhile isWhiteSpace z)
                           ++ closeTag ++ r).
          { rewrite <- Er. rewrite <- !app_assoc.
            rewrite (takeWhile_dropWhile isWhiteSpace z).
            unfold z. rewrite Ea. rewrite Ew0 at 1. rewrite Ew, Exy.
            now rewrite <- !app_assoc. }
          apply Hmin in El. rewrite Ew0, Ew, Exy in El.
          rewrite !length_app in El. rewrite !length_app. simpl in *. lia. }
      apply forallb_last in Hall. congruence.
  - intros x y E Hy. apply literal_None. fold openTag. intros r.
    eapply leftmost_earlier; [exact Hopen | exact E | exact Hy].
Qed.
End CommentBlock.

(** A match of the first pattern shows both delimiters, one after the
    other. *)
Lemma commentMatch_Some_block (body m : str) :
  commentMatch body = Some m -> hasCommentBlock body.
Proof.
  unfold commentMatch.
  destruct (search _ body) as [[pre g]|] eqn:E; [|discriminate].
  intros _. apply search_Some in E as (t & -> & E).
  apply literal_Some in E as (r1 & -> & E).
  apply star_Some in E as (g1 & r2 & -> & _ & E).
  apply starLazy_Some in E as (g2 & r3 & -> & E).
  apply star_Some in E as (g3 & r4 & -> & _ & E).
  apply literal_Some in E as (r5 & -> & _).
  exists pre, (g1 ++ g2 ++ g3), r5.
  unfold openTag, closeTag. now rewrite <- !app_assoc.
Qed.

Lemma hasCommentBlock_occurs (body : str) :
  hasCommentBlock body -> occurs openTag body /\ occurs closeTag body.
Proof.
  intros (a & b & c & ->). split.
  - now exists a, (b ++ closeTag ++ c).
  - exists (a ++ openTag ++ b), c. now rewrite <- !app_assoc.
Qed.

Lemma commentMatch_None (body : str) :
  ~ hasCommentBlock body -> commentMatch body = None.
Proof.
  intros H. destruct (commentMatch body) eqn:E; [|reflexivity].
  now apply commentMatch_Some_block in E.
Qed.

(** Where a block is, the leftmost opening delimiter has a leftmost
    closing delimiter after it. *)
Lemma hasCommentBlock_leftmost (body : str) :
  hasCommentBlock body ->
  exists lead inner tail,
    leftmost openTag lead (inner ++ closeTag ++ tail) body /\
    leftmost closeTag inner tail (inner ++ closeTag ++ tail).
Proof.
  intros Hb. pose proof Hb as (a & b & c & E).
  destruct (@leftmost_exists openTag body) as (lead & after & Hl);
    [apply (hasCommentBlock_occurs Hb)|].
  pose proof Hl as [El Hmin].
  assert (Ho : occurs closeTag after).
  { specialize (Hmin a (b ++ closeTag ++ c) E).
    rewrite El in E.
    destruct (app_split_le _ _ _ _ E Hmin) as (w & _ & E').
    assert (Hlen : (List.length openTag <= List.length (w ++ openTag))%nat)
      by (rewrite length_app; lia).
    rewrite (app_assoc w) in E'.
    destruct (app_split_le _ _ _ _ E' Hlen) as (w' & _ & ->).
    exists (w' ++ b), c. now rewrite <- !app_assoc. }
  destruct (leftmost_exists Ho) as (inner & tail & Hc).
  pose proof Hc as [Ea _]. subst after.
  now exists lead, inner, tail.
Qed.

(** ** The key patterns *)

Lemma keyMatch_leftmost (key metadata pre sp v rest : str) (c : char) (v' : str) :
  leftmost key pre (sp ++ v ++ rest) metadata ->
  forallb isWhiteSpace sp = true ->
  v = c :: v' -> isWhiteSpace c = false ->
  forallb dot v = true ->
  match rest with [] => True | d :: _ => isLineTerminator d = true end ->
  keyMatch key metadata = Some v.
Proof.
  intros Hk Hsp -> Hc Hv Hrest. pose proof Hk as [-> _].
  unfold keyMatch. erewrite search_first; [reflexivity | |].
  - rewrite literal_app. apply star_max.
    rewrite dropWhile_all by exact Hsp.
    simpl dropWhile. rewrite Hc.
    rewrite plus_dot_line. simpl app. rewrite (nonspace_dot _ Hc).
    f_equal. apply (takeWhile_all_stop dot (c :: v') rest Hv).
    destruct rest as [|d rest]; [exact I|]. unfold dot. now rewrite Hrest.
  - intros x y E Hy. apply literal_None. intros r.
    eapply leftmost_earlier; [exact Hk | exact E | exact Hy].
Qed.

Lemma keyMatch_absent (key metadata : str) :
  ~ occurs key metadata -> keyMatch key metadata = None.
Proof.
  intros H. unfold keyMatch. rewrite search_None; [reflexivity|].
  intros x t -> . apply literal_None. intros r ->. apply H. now exists x, r.
Qed.

(** What a key pattern captures is never empty and holds no line
    terminator. *)
Lemma keyMatch_line (key metadata v : str) :
  keyMatch key metadata = Some v -> v <> [] /\ forallb dot v = true.
Proof.
  unfold keyMatch.
  destruct (search _ metadata) as [[pre g]|] eqn:E; [|discriminate].
  intros [= <-]. apply search_Some in E as (t & -> & E).
  apply literal_Some in E as (r1 & -> & E).
  apply star_Some in E as (g1 & r2 & -> & _ & E).
  destruct r2 as [|c r2]; [discriminate|]. simpl in E.
  destruct (dot c) eqn:Ec; [|discriminate].
  apply star_Some in E as (g2 & r3 & -> & Hg & [= <-]).
  split; [discriminate|]. simpl. now rewrite Ec, Hg.
Qed.

(** ** split and join *)

Lemma split_nonempty (sep : char) (s : str) : split sep s <> [].
Proof.
  destruct s as [|c s]; simpl; [discriminate|].
  destruct (N.eqb c sep); [discriminate|].
  destruct (split sep s); discriminate.
Qed.

Lemma join_split (sep : char) (s : str) : join sep (split sep s) = s.
Proof.
  induction s as [|c s IH]; [reflexivity|]. simpl.
  pose proof (split_nonempty sep s) as Hne.
  destruct (N.eqb c sep) eqn:E.
  - apply N.eqb_eq in E as ->. simpl.
    destruct (split sep s) as [|seg segs]; [congruence|].
    simpl in *. now rewrite IH.
  - destruct (split sep s) as [|seg segs]; [congruence|].
    destruct segs; simpl in *; now rewrite <- IH.
Qed.

Lemma length_split (sep : char) (s : str) :
  List.length (split sep s) = S (count_occ N.eq_dec s sep).
Proof.
  induction s as [|c s IH]; [reflexivity|]. simpl.
  pose proof (split_nonempty sep s) as Hne.
  destruct (N.eqb c sep) eqn:E.
  - apply N.eqb_eq in E as ->. simpl. rewrite IH.
    destruct (N.eq_dec sep sep); [reflexivity | congruence].
  - apply N.eqb_neq in E.
    destruct (N.eq_dec c sep); [congruence|].
    destruct (split sep s); [congruence | exact IH].
Qed.

Lemma split_no_sep (sep : char) (s : str) :
  Forall (fun seg => ~ In sep seg) (split sep s).
Proof.
  induction s as [|c s IH]; simpl; [constructor; auto|].
  destruct (N.eqb c sep) eqn:E.
  - constructor; auto.
  - apply N.eqb_neq in E.
    destruct (split sep s) as [|seg segs]; [constructor; auto; simpl; tauto|].
    inversion IH; subst. constructor; [|assumption].
    simpl. intros [H|H]; [congruence | contradiction].
Qed.

(** ** trim is idempotent *)

Lemma trimStart_trimmedEnd (s : str) :
  trimStart (trimEnd (trimStart s)) = trimEnd (trimStart s).
Proof.
  unfold trimStart at 1.
  destruct (trimEnd (trimStart s)) as [|c r] eqn:E; [reflexivity|].
  assert (Hc : isWhiteSpace c = false).
  { destruct (trimEnd_split (trimStart s)) as (w & Ew & _).
    rewrite E in Ew. unfold trimStart in Ew.
    now apply (@dropWhile_head isWhiteSpace s c (r ++ w)). }
  simpl. now rewrite Hc.
Qed.

Lemma trimEnd_idem (s : str) : trimEnd (trimEnd s) = trimEnd s.
Proof.
  unfold trimEnd. now rewrite rev_involutive, dropWhile_idem.
Qed.

Lemma trim_trimmed (s : str) : trimmed (trim s).
Proof.
  unfold trimmed, trim. rewrite trimStart_trimmedEnd.
  apply trimEnd_idem.
Qed.

Lemma commentMatch_None_iff (body : str) :
  commentMatch body = None <-> ~ hasCommentBlock body.
Proof.
  split; [|apply commentMatch_None].
  intros E Hb.
  destruct (hasCommentBlock_leftmost Hb) as (lead & inner & tail & Ho & Hc).
  rewrite (commentMatch_leftmost Ho Hc) in E. discriminate.
Qed.

Lemma no_delimiter_no_block (body : str) :
  ~ occurs openTag body \/ ~ occurs closeTag body -> ~ hasCommentBlock body.
Proof.
  intros H Hb. apply hasCommentBlock_occurs in Hb. tauto.
Qed.

(* ===================================================================== *)
(** * Properties of the metadata parser *)
(* ===================================================================== *)

(** C5. A body without a comment block (no opening delimiter followed
    by a closing one; in particular a body that holds no delimiter) is
    parsed to itself as description, with [start], [end],
    [expectedDown] and [expectedDegraded] all absent. *)
Theorem parse_without_block `{Host} (body : str) :
  ~ hasCommentBlock body ->
  parseIssueBody body
  = {| start := None; end_ := None;
       expectedDown := None; expectedDegraded := None;
       description := body |}.
Proof.
  intros Hb. unfold parseIssueBody. now rewrite (commentMatch_None Hb).
Qed.

Lemma parse_without_block_witness :
  ~ hasCommentBlock (lit "core-api down") /\
  @parseIssueBody SampleHost.host (lit "core-api down")
  = {| start := None; end_ := None;
       expectedDown := None; expectedDegraded := None;
       description := lit "core-api down" |}.
Proof.
  assert (Hb : ~ hasCommentBlock (lit "core-api down"))
    by (apply commentMatch_None_iff; reflexivity).
  split; [exact Hb | exact (@parse_without_block SampleHost.host _ Hb)].
Defined.

(** C4, as the code has it. For a body with a comment block, the
    description is the body without the block (from the leftmost opening
    delimiter to the first closing delimiter after it) and without the
    white space that follows the block, and then trimmed at both ends:
    white space that leads the body or ends it is not kept. *)
Theorem description_of_block `{Host} (body : str) :
  hasCommentBlock body ->
  exists lead inner tail,
    leftmost openTag lead (inner ++ closeTag ++ tail) body /\
    leftmost closeTag inner tail (inner ++ closeTag ++ tail) /\
    description (parseIssueBody body) = trim (lead ++ trimStart tail).
Proof.
  intros Hb.
  destruct (hasCommentBlock_leftmost Hb) as (lead & inner & tail & Ho & Hc).
  exists lead, inner, tail. repeat split; try apply Ho; try apply Hc.
  unfold parseIssueBody. rewrite (commentMatch_leftmost Ho Hc). simpl.
  now rewrite (removeComment_leftmost Ho Hc).
Qed.

Lemma description_of_block_witness :
  hasCommentBlock Samples.spaced /\
  exists lead inner tail,
    leftmost openTag lead (inner ++ closeTag ++ tail) Samples.spaced /\
    leftmost closeTag inner tail (inner ++ closeTag ++ tail) /\
    description (@parseIssueBody SampleHost.host Samples.spaced)
    = trim (lead ++ trimStart tail).
Proof.
  assert (Hb : hasCommentBlock Samples.spaced)
    by (exists (lit "  hi "), (lit " x "), (lit " there  "); reflexivity).
  split; [exact Hb | exact (@description_of_block SampleHost.host _ Hb)].
Defined.

(** C4, as stated, fails: the block of this body sits between
    ["  hi "] and [" there  "], and the description is ["hi there"],
    not the body with the block and the blank after it cut out. *)
Lemma description_not_verbatim :
  Samples.spaced
  = lit "  hi " ++ (openTag ++ lit " x " ++ closeTag) ++ lit " " ++ lit "there  "
  /\ description (@parseIssueBody SampleHost.host Samples.spaced)
     = lit "hi there"
  /\ description (@parseIssueBody SampleHost.host Samples.spaced)
     <> lit "  hi " ++ lit "there  ".
Proof.
  repeat split; try reflexivity. vm_compute. discriminate.
Qed.

(** C8. The value that follows [expectedDown:] or [expectedDegraded:]
    in the block is trimmed, split at every comma, and each segment is
    trimmed; no segment is dropped, so the list has one element more
    than the value has commas, and joining the segments of the value
    gives the value back. *)
Theorem service_lists_split `{Host} (body metadata v : str) :
  commentMatch body = Some metadata ->
  let segments := List.map trim (split comma (trim v)) in
  (keyMatch (lit "expectedDown:") metadata = Some v ->
   expectedDown (parseIssueBody body) = Some segments) /\
  (keyMatch (lit "expectedDegraded:") metadata = Some v ->
   expectedDegraded (parseIssueBody body) = Some segments) /\
  List.length segments = S (count_occ N.eq_dec (trim v) comma) /\
  Forall trimmed segments /\
  join comma (split comma (trim v)) = trim v.
Proof.
  intros Hm segments. unfold parseIssueBody. rewrite Hm. simpl.
  repeat split.
  - now intros ->.
  - now intros ->.
  - unfold segments. now rewrite length_map, length_split.
  - unfold segments. apply Forall_forall. intros x Hx.
    apply in_map_iff in Hx as (y & <- & _). apply trim_trimmed.
  - apply join_split.
Qed.

Lemma service_lists_split_witness :
  commentMatch Samples.downList
  = Some (lit "expectedDown: a,,b" ++ [10%N]
          ++ lit "expectedDegraded:  base-api , script-license-api") /\
  expectedDown (@parseIssueBody SampleHost.host Samples.downList)
  = Some [lit "a"; []; lit "b"].
Proof.
  split; [reflexivity|].
  refine (proj1 (@service_lists_split SampleHost.host Samples.downList _
                   (lit "a,,b") eq_refl) _).
  reflexivity.
Defined.

(** C3, as the code has it. An unparsable [start] value gives a
    [start] that is present and invalid. [isUpcoming] is then false, as
    for an absent [start]. [isActiveSchedule] is false as soon as an
    [end] value is present as well, valid or not, and true only when
    [end] is absent. The parser is a total function: it never throws. *)
Theorem invalid_start_schedule `{Host} (body metadata v : str) (now : Z) :
  commentMatch body = Some metadata ->
  keyMatch (lit "start:") metadata = Some v ->
  Date_parse (trim v) = InvalidDate ->
  start (parseIssueBody body) = Some InvalidDate /\
  isUpcoming now (parseIssueBody body) = false /\
  (end_ (parseIssueBody body) <> None ->
   isActiveSchedule now (parseIssueBody body) = false) /\
  (end_ (parseIssueBody body) = None ->
   isActiveSchedule now (parseIssueBody body) = true).
Proof.
  intros Hm Hk Hd. unfold parseIssueBody. rewrite Hm.
  unfold isUpcoming, isActiveSchedule. simpl. rewrite Hk. simpl. rewrite Hd.
  repeat split.
  - destruct (keyMatch (lit "end:") metadata); simpl; [reflexivity|].
    now intros [].
  - destruct (keyMatch (lit "end:") metadata); simpl; [discriminate|].
    reflexivity.
Qed.

Lemma invalid_start_schedule_witness :
  start (@parseIssueBody SampleHost.host Samples.vague) = Some InvalidDate /\
  isUpcoming Samples.duringWindow
             (@parseIssueBody SampleHost.host Samples.vague) = false.
Proof.
  pose proof (@invalid_start_schedule SampleHost.host Samples.vague
                (lit "start: soon" ++ [10%N] ++ lit "end: later")
                (lit "soon") Samples.duringWindow
                eq_refl eq_refl eq_refl) as (Hs & Hu & _).
  split; [exact Hs | exact Hu].
Defined.

(** C3, as stated, fails: with both values unparsable the notice is
    not reported active. *)
Lemma invalid_window_not_active :
  start (@parseIssueBody SampleHost.host Samples.vague) = Some InvalidDate /\
  end_ (@parseIssueBody SampleHost.host Samples.vague) = Some InvalidDate /\
  isActiveSchedule Samples.duringWindow
                   (@parseIssueBody SampleHost.host Samples.vague) = false.
Proof. repeat split; reflexivity. Qed.

(* ===================================================================== *)
(** * Properties of the schedule predicates *)
(* ===================================================================== *)

(** C7. Both bounds are inclusive: a window whose start and end are the
    current instant is active, and not upcoming; a start one second
    after the current instant, with no end, is upcoming. *)
Theorem inclusive_bounds (now : Z) (point later : ParsedStatusInfo) :
  start point = Some (Instant now) ->
  end_ point = Some (Instant now) ->
  start later = Some (Instant (now + 1000)) ->
  end_ later = None ->
  isActiveSchedule now point = true /\
  isUpcoming now point = false /\
  isUpcoming now later = true.
Proof.
  intros Hs He Hs' He'. unfold isActiveSchedule, isUpcoming.
  rewrite Hs, He, Hs'. simpl.
  rewrite Z.leb_refl, Z.ltb_irrefl. repeat split.
  apply Z.ltb_lt. lia.
Qed.

Lemma inclusive_bounds_witness :
  let point := {| start := Some (Instant 1769095800000);
                  end_ := Some (Instant 1769095800000);
                  expectedDown := None; expectedDegraded := None;
                  description := [] |} in
  let later := {| start := Some (Instant (1769095800000 + 1000));
                  end_ := None;
                  expectedDown := None; expectedDegraded := None;
                  description := [] |} in
  isActiveSchedule 1769095800000 point = true /\
  isUpcoming 1769095800000 point = false /\
  isUpcoming 1769095800000 later = true.
Proof.
  intros point later.
  exact (@inclusive_bounds 1769095800000 point later
           eq_refl eq_refl eq_refl eq_refl).
Defined.

(* ===================================================================== *)
(** * Properties of the dismissal store *)
(* ===================================================================== *)

Lemma includesNum_In (l : list Z) (x : Z) :
  includesNum l x = true <-> In x l.
Proof.
  unfold includesNum. rewrite existsb_exists. split.
  - intros (y & Hy & E). apply Z.eqb_eq in E. now subst.
  - intros Hx. exists x. split; [exact Hx | apply Z.eqb_refl].
Qed.

Lemma includesNum_app (l : list Z) (x : Z) :
  includesNum (l ++ [x]) x = true.
Proof.
  apply includesNum_In, in_or_app. right. now left.
Qed.

Lemma filter_Subseq (A : Type) (f : A -> bool) (l : list A) :
  Subseq (List.filter f l) l.
Proof.
  induction l as [|x l IH]; simpl; [constructor|].
  destruct (f x); now constructor.
Qed.

(** C6. Dismissing an id twice leaves the same state, and the same
    stored ids, as dismissing it once, and the id is then dismissed.
    [getAllActiveIssues] returns no notice whose id is stored, keeps the
    order of the fetched list, and keeps every notice whose id is not
    stored. *)
Theorem dismissal_store (issueId : Z) (st : State) :
  dismissAlert issueId (dismissAlert issueId st) = dismissAlert issueId st /\
  isAlertDismissed (dismissAlert issueId st) issueId = true /\
  Forall (fun issue => ~ In (id issue) (dismissedAlerts st))
         (getAllActiveIssues st) /\
  Subseq (getAllActiveIssues st) (issues st) /\
  Forall (fun issue => In (id issue) (dismissedAlerts st)
                       \/ In issue (getAllActiveIssues st))
         (issues st).
Proof.
  repeat split.
  - unfold dismissAlert at 2 3.
    destruct (includesNum (dismissedAlerts st) issueId) eqn:E; simpl.
    + unfold dismissAlert, dismissedAlerts in *. simpl. now rewrite E.
    + unfold dismissAlert, dismissedAlerts. simpl.
      fold (dismissedAlerts st). now rewrite includesNum_app.
  - unfold isAlertDismissed, dismissAlert.
    destruct (includesNum (dismissedAlerts st) issueId) eqn:E; simpl.
    + exact E.
    + unfold dismissedAlerts at 1. simpl. apply includesNum_app.
  - apply Forall_forall. intros issue Hi.
    apply filter_In in Hi as [_ Hi]. unfold isAlertDismissed in Hi.
    rewrite <- includesNum_In. now destruct (includesNum _ _).
  - apply filter_Subseq.
  - apply Forall_forall. intros issue Hi.
    destruct (includesNum (dismissedAlerts st) (id issue)) eqn:E.
    + left. now apply includesNum_In.
    + right. apply filter_In. split; [exact Hi|].
      unfold isAlertDismissed. now rewrite E.
Qed.

(* ===================================================================== *)
(** * Properties of the fetcher *)
(* ===================================================================== *)

(** C10. After a fetch that fails (the request rejects, the status is
    not a success, or the body cannot be decoded) the notices are those
    held before, an error message is set, and [isLoading] is false. *)
Theorem failed_fetch_keeps_issues (o : FetchOutcome) (st : State) :
  fetchFails o = true ->
  issues (fetchStatusIssues o st) = issues st /\
  (exists message, error (fetchStatusIssues o st) = Some message) /\
  isLoading (fetchStatusIssues o st) = false.
Proof.
  intros Hf. unfold fetchStatusIssues, tryFetch.
  destruct o as [e|ok code payload]; simpl in *.
  - repeat split. eexists. reflexivity.
  - destruct ok; simpl in *.
    + destruct payload; try discriminate; simpl;
        (repeat split; eexists; reflexivity).
    + repeat split. eexists. reflexivity.
Qed.

Lemma failed_fetch_keeps_issues_witness :
  let o := Response false 403 (JsonItems []) in
  let st := Samples.fresh [Samples.incident] in
  issues (fetchStatusIssues o st) = [Samples.incident] /\
  (exists message, error (fetchStatusIssues o st) = Some message) /\
  isLoading (fetchStatusIssues o st) = false.
Proof.
  intros o st. exact (@failed_fetch_keeps_issues o st eq_refl).
Defined.

(** On payloads of the declared type the untyped fetch is the typed
    one. *)
Lemma fetchStatusIssuesRaw_typed (o : FetchOutcome) (st : State) :
  fetchStatusIssuesRaw (rawOutcome o) (rawState st)
  = rawState (fetchStatusIssues o st).
Proof.
  unfold fetchStatusIssuesRaw, fetchStatusIssues, rawTryFetch, tryFetch.
  destruct o as [[m|]|[|] code [[m|]|m| |items]]; reflexivity.
Qed.

(** C9, as the code has it. A status that is not a success sets the
    error to ["GitHub API error: "] followed by the code, and a body
    that is not JSON, or the value [null], sets it to the message of
    what was thrown; these leave [issues] as it was. A JSON value whose
    [items] is missing or falsy sets no error and makes the notice list
    empty. A truthy [items] is stored in [issues] as it is, with no
    error, whether it is an array of notices or not. *)
Theorem fetch_outcomes (rs : RawState) (code : Z) (payload : RawPayload)
        (message : str) (items : IssuesValue) :
  (rawError (fetchStatusIssuesRaw (RawResponse false code payload) rs)
   = Some (lit "GitHub API error: " ++ numberToString code) /\
   rawIssues (fetchStatusIssuesRaw (RawResponse false code payload) rs)
   = rawIssues rs) /\
  (rawError (fetchStatusIssuesRaw
               (RawResponse true code (RawRejects (ErrorObject message))) rs)
   = Some message /\
   rawIssues (fetchStatusIssuesRaw
                (RawResponse true code (RawRejects (ErrorObject message))) rs)
   = rawIssues rs) /\
  (rawError (fetchStatusIssuesRaw
               (RawResponse true code (RawNull message)) rs)
   = Some message /\
   rawIssues (fetchStatusIssuesRaw
                (RawResponse true code (RawNull message)) rs)
   = rawIssues rs) /\
  (rawError (fetchStatusIssuesRaw (RawResponse true code RawNoItems) rs)
   = None /\
   rawIssues (fetchStatusIssuesRaw (RawResponse true code RawNoItems) rs)
   = Notices []) /\
  (rawError (fetchStatusIssuesRaw
               (RawResponse true code (RawItems items)) rs) = None /\
   rawIssues (fetchStatusIssuesRaw
                (RawResponse true code (RawItems items)) rs) = items) /\
  (forall o,
     rawError (fetchStatusIssuesRaw o rs) = None
     <-> exists c p, o = RawResponse true c p
                     /\ (p = RawNoItems \/ exists v, p = RawItems v)).
Proof.
  repeat split.
  - unfold fetchStatusIssuesRaw, rawTryFetch.
    destruct o as [e|[|] c [e|m| |v]]; simpl; try discriminate; intros _.
    + exists c, RawNoItems. split; [reflexivity | now left].
    + exists c, (RawItems v). split; [reflexivity | right; now exists v].
  - intros (c & p & -> & [-> | (v & ->)]); reflexivity.
Qed.

(** C9, as stated, fails: a response whose JSON value has no [items]
    collection records no error, and the notices held before are
    replaced by the empty list. *)
Lemma payload_without_items_is_no_error :
  let st := Samples.fresh [Samples.incident] in
  fetchFails (Response true 200 JsonNoItems) = false /\
  error (fetchStatusIssues (Response true 200 JsonNoItems) st) = None /\
  issues (fetchStatusIssues (Response true 200 JsonNoItems) st) = [] /\
  rawError (fetchStatusIssuesRaw (RawResponse true 200 RawNoItems)
                                 (rawState st)) = None /\
  rawIssues (fetchStatusIssuesRaw (RawResponse true 200 RawNoItems)
                                  (rawState st)) = Notices [].
Proof. repeat split. Qed.

(* ===================================================================== *)
(** * Properties of the selection *)
(* ===================================================================== *)

Section Selection.
Context `{Host}.
Import StatusAlertAggregated.

Lemma hasStatusAlert_In (st : State) (issue : StatusIssue) :
  In issue (issues st) ->
  tagged "status" issue = true ->
  isAlertDismissed st (id issue) = false ->
  In issue (allStatusIssues st) /\ hasStatusAlert st = true.
Proof.
  intros Hi Ht Hd.
  assert (Hin : In issue (allStatusIssues st)).
  { apply filter_In. split; [exact Hi|].
    unfold tagged in Ht. now rewrite Ht, Hd. }
  split; [exact Hin|]. unfold hasStatusAlert.
  destruct (allStatusIssues st); [contradiction | reflexivity].
Qed.

Lemma getAlertType_status (ls : list Label) :
  getAlertType ls = status ->
  includesStr (labelNames ls) (lit "status") = true.
Proof.
  unfold getAlertType.
  destruct (includesStr (labelNames ls) (lit "maintenance"));
    [discriminate|].
  now destruct (includesStr (labelNames ls) (lit "status")).
Qed.

Lemma getActiveIssue_Some (st : State) (issue : StatusIssue) :
  getActiveIssue st = Some issue ->
  In issue (issues st) /\ isAlertDismissed st (id issue) = false.
Proof.
  intros E. apply find_some in E as [Hi Hd]. split; [exact Hi|].
  now destruct (isAlertDismissed st (id issue)).
Qed.

(** With a status notice pending, the banner is the status group. *)
Lemma status_group_shown (st : State) (now : Z) (issue : StatusIssue) :
  In issue (issues st) ->
  tagged "status" issue = true ->
  isAlertDismissed st (id issue) = false ->
  banner now st
  = Some {| bannerType := status;
            bannerIssues := allStatusIssues st;
            bannerUpcoming := false |}.
Proof.
  intros Hi Ht Hd.
  destruct (hasStatusAlert_In st issue Hi Ht Hd) as [_ Hs].
  unfold banner, isMaintenanceUpcoming, alertType. rewrite Hs. simpl.
  now destruct (parsedInfo st).
Qed.

(** Without one, it is the first notice that is not dismissed. *)
Lemma first_notice_shown (st : State) (now : Z) (issue : StatusIssue) :
  getActiveIssue st = Some issue ->
  hasStatusAlert st = false ->
  getAlertType (labels issue) <> status /\
  banner now st
  = Some {| bannerType := getAlertType (labels issue);
            bannerIssues := [issue];
            bannerUpcoming :=
              match getAlertType (labels issue) with
              | maintenance => isUpcoming now (parseIssueBody (body issue))
              | _ => false
              end |}.
Proof.
  intros Ea Hs.
  assert (Hn : getAlertType (labels issue) <> status).
  { intros Et. apply getAlertType_status in Et.
    destruct (getActiveIssue_Some _ Ea) as [Hi Hd].
    destruct (hasStatusAlert_In st issue Hi Et Hd) as [_ Hs'].
    congruence. }
  split; [exact Hn|].
  unfold banner, isMaintenanceUpcoming, parsedInfo, alertType, activeIssue.
  rewrite Hs, Ea. simpl.
  destruct (getAlertType (labels issue)); congruence.
Qed.
End Selection.

Section Rendering.
Context `{Host}.

Lemma rendered_aggregated (i : Instance) :
  isVisible i = true -> isLoading (refs i) = false ->
  StatusAlertAggregated.rendered i
  = StatusAlertAggregated.banner (seenClock i) (seen i).
Proof.
  intros Hv Hl. unfold StatusAlertAggregated.rendered. now rewrite Hv, Hl.
Qed.

Lemma rendered_single (i : Instance) :
  isVisible i = true -> isLoading (refs i) = false ->
  StatusAlertSingle.rendered i
  = StatusAlertSingle.banner (seenClock i) (seen i).
Proof.
  intros Hv Hl. unfold StatusAlertSingle.rendered. now rewrite Hv, Hl.
Qed.

(** The banner of the single-issue variant is the first notice that is
    not dismissed. *)
Lemma single_first_notice_shown (st : State) (now : Z) (issue : StatusIssue) :
  getActiveIssue st = Some issue ->
  StatusAlertSingle.banner now st
  = Some {| bannerType := getAlertType (labels issue);
            bannerIssues := [issue];
            bannerUpcoming :=
              match getAlertType (labels issue) with
              | maintenance => isUpcoming now (parseIssueBody (body issue))
              | _ => false
              end |}.
Proof.
  intros Ea.
  unfold StatusAlertSingle.banner, StatusAlertSingle.isMaintenanceUpcoming,
    StatusAlertSingle.parsedInfo, StatusAlertSingle.alertType,
    StatusAlertSingle.activeIssue.
  rewrite Ea. now destruct (getAlertType (labels issue)).
Qed.

Lemma getAlertType_maintenance (ls : list Label) :
  includesStr (labelNames ls) (lit "maintenance") = true ->
  getAlertType ls = maintenance.
Proof.
  unfold getAlertType. now intros ->.
Qed.
End Rendering.

(** C1, as the code has it. The selection does not read the time
    window: in a component on screen whose bindings saw no status
    notice pending, the first notice that was not dismissed is the
    banner, in both variants, also when its window had ended at the
    instant the bindings were run. It is styled as upcoming exactly
    when it is a maintenance notice whose start is after that
    instant. *)
Theorem expired_notice_still_shown `{Host} (i : Instance)
        (issue : StatusIssue) (s e : Z) :
  isVisible i = true ->
  isLoading (refs i) = false ->
  getActiveIssue (seen i) = Some issue ->
  StatusAlertAggregated.hasStatusAlert (seen i) = false ->
  start (parseIssueBody (body issue)) = Some (Instant s) ->
  end_ (parseIssueBody (body issue)) = Some (Instant e) ->
  (e < seenClock i)%Z ->
  getAlertType (labels issue) <> status /\
  StatusAlertAggregated.rendered i
  = Some {| bannerType := getAlertType (labels issue);
            bannerIssues := [issue];
            bannerUpcoming :=
              match getAlertType (labels issue) with
              | maintenance => Z.ltb (seenClock i) s
              | _ => false
              end |} /\
  StatusAlertSingle.rendered i = StatusAlertAggregated.rendered i.
Proof.
  intros Hv Hl Ea Hs Hst Hen Hlt.
  rewrite (rendered_aggregated i Hv Hl), (rendered_single i Hv Hl).
  rewrite (single_first_notice_shown (seen i) (seenClock i) Ea).
  destruct (first_notice_shown (seen i) (seenClock i) Ea Hs) as [Hn ->].
  unfold isUpcoming. rewrite Hst. simpl. repeat split. exact Hn.
Qed.

Lemma expired_notice_still_shown_witness :
  @StatusAlertAggregated.rendered SampleHost.host
    (Samples.onScreen Samples.afterWindow [Samples.window])
  = Some {| bannerType := maintenance;
            bannerIssues := [Samples.window];
            bannerUpcoming := false |}.
Proof.
  refine (proj1 (proj2 (@expired_notice_still_shown SampleHost.host
                   (Samples.onScreen Samples.afterWindow [Samples.window])
                   Samples.window 1769095800000 1769099400000
                   eq_refl eq_refl eq_refl eq_refl eq_refl eq_refl _))).
  unfold Samples.afterWindow. simpl. lia.
Defined.

(** C1, as stated, fails: a maintenance notice that is not dismissed,
    whose start and end are valid and whose end is before the current
    instant, is the banner of a component on screen. *)
Lemma expired_notice_selected :
  let i := Samples.onScreen Samples.afterWindow [Samples.window] in
  let p := @parseIssueBody SampleHost.host (body Samples.window) in
  @getAlertType SampleHost.host (labels Samples.window) = maintenance /\
  isAlertDismissed (refs i) (id Samples.window) = false /\
  getAllActiveIssues (refs i) = [Samples.window] /\
  start p = Some (Instant 1769095800000) /\
  end_ p = Some (Instant 1769099400000) /\
  (1769099400000 < Samples.afterWindow)%Z /\
  isActiveSchedule Samples.afterWindow p = false /\
  @StatusAlertAggregated.rendered SampleHost.host i
  = Some {| bannerType := maintenance;
            bannerIssues := [Samples.window];
            bannerUpcoming := false |} /\
  @StatusAlertSingle.rendered SampleHost.host i
  = Some {| bannerType := maintenance;
            bannerIssues := [Samples.window];
            bannerUpcoming := false |}.
Proof. repeat split. Qed.

(** C2, as the code has it. Of two fetched notices that are not
    dismissed, one tagged [status] and one tagged [maintenance] whose
    window holds the instant at which the bindings were run, the
    aggregated variant shows the status group, whichever was fetched
    first: its type is [status], it holds the status notice and only
    notices tagged [status]. The single-issue variant shows the notice
    that was fetched first: the status notice when that came first, the
    maintenance notice, as a maintenance in progress, when that did. *)
Theorem status_takes_precedence `{Host} (i : Instance)
        (s m : StatusIssue) (from to : Z) :
  isVisible i = true ->
  isLoading (refs i) = false ->
  tagged "status" s = true ->
  tagged "maintenance" m = true ->
  isAlertDismissed (seen i) (id s) = false ->
  isAlertDismissed (seen i) (id m) = false ->
  start (parseIssueBody (body m)) = Some (Instant from) ->
  end_ (parseIssueBody (body m)) = Some (Instant to) ->
  (from < seenClock i < to)%Z ->
  (issues (refs i) = [s; m] \/ issues (refs i) = [m; s] ->
   exists b,
     StatusAlertAggregated.rendered i = Some b /\
     bannerType b = status /\
     In s (bannerIssues b) /\
     Forall (fun issue => tagged "status" issue = true) (bannerIssues b) /\
     (tagged "status" m = false -> bannerIssues b = [s]) /\
     bannerUpcoming b = false) /\
  (issues (refs i) = [s; m] ->
   exists b,
     StatusAlertSingle.rendered i = Some b /\
     bannerIssues b = [s] /\
     bannerType b = getAlertType (labels s) /\
     (tagged "maintenance" s = false -> bannerType b = status)) /\
  (issues (refs i) = [m; s] ->
   StatusAlertSingle.rendered i
   = Some {| bannerType := maintenance;
             bannerIssues := [m];
             bannerUpcoming := false |}).
Proof.
  intros Hv Hl Hs Hm Hds Hdm Hst Hen Hw.
  rewrite (rendered_aggregated i Hv Hl), (rendered_single i Hv Hl).
  assert (Ei : issues (seen i) = issues (refs i)) by reflexivity.
  repeat split.
  - intros Hl2.
    assert (Hi : In s (issues (seen i)))
      by (rewrite Ei; destruct Hl2 as [-> | ->]; simpl; auto).
    rewrite (status_group_shown (seen i) (seenClock i) s Hi Hs Hds).
    eexists. split; [reflexivity|]. simpl.
    destruct (hasStatusAlert_In (seen i) s Hi Hs Hds) as [Hin _].
    repeat split.
    + exact Hin.
    + apply Forall_forall. intros issue Hx.
      apply filter_In in Hx as [_ Hx]. apply andb_true_iff in Hx as [Hx _].
      exact Hx.
    + intros Hms. unfold StatusAlertAggregated.allStatusIssues.
      unfold tagged in Hs, Hms. rewrite Ei.
      destruct Hl2 as [-> | ->]; simpl; now rewrite Hs, Hms, Hds.
  - intros E.
    assert (Ea : getActiveIssue (seen i) = Some s).
    { unfold getActiveIssue. rewrite Ei, E. simpl. now rewrite Hds. }
    rewrite (single_first_notice_shown (seen i) (seenClock i) Ea).
    eexists. split; [reflexivity|]. simpl. repeat split.
    intros Hsm. unfold tagged in Hs, Hsm. unfold getAlertType.
    now rewrite Hsm, Hs.
  - intros E.
    assert (Ea : getActiveIssue (seen i) = Some m).
    { unfold getActiveIssue. rewrite Ei, E. simpl. now rewrite Hdm. }
    rewrite (single_first_notice_shown (seen i) (seenClock i) Ea).
    unfold tagged in Hm. rewrite (getAlertType_maintenance _ Hm).
    unfold isUpcoming. rewrite Hst. simpl.
    destruct (Z.ltb_spec (seenClock i) from); [lia | reflexivity].
Qed.

Lemma status_takes_precedence_witness :
  @StatusAlertSingle.rendered SampleHost.host
    (Samples.onScreen Samples.duringWindow [Samples.window; Samples.incident])
  = Some {| bannerType := maintenance;
            bannerIssues := [Samples.window];
            bannerUpcoming := false |}.
Proof.
  refine (proj2 (proj2 (@status_takes_precedence SampleHost.host
              (Samples.onScreen Samples.duringWindow
                 [Samples.window; Samples.incident])
              Samples.incident Samples.window
              1769095800000 1769099400000
              eq_refl eq_refl eq_refl eq_refl eq_refl eq_refl
              eq_refl eq_refl _)) eq_refl).
  unfold Samples.duringWindow. simpl. lia.
Defined.

(** C2, as stated, fails: with the maintenance notice fetched first,
    the single-issue variant shows the maintenance notice, though a
    status notice is pending and not dismissed. *)
Lemma single_variant_shows_maintenance :
  let i := Samples.onScreen Samples.duringWindow
             [Samples.window; Samples.incident] in
  let p := @parseIssueBody SampleHost.host (body Samples.window) in
  @tagged SampleHost.host "status" Samples.incident = true /\
  @tagged SampleHost.host "maintenance" Samples.window = true /\
  isAlertDismissed (refs i) (id Samples.incident) = false /\
  isAlertDismissed (refs i) (id Samples.window) = false /\
  isActiveSchedule Samples.duringWindow p = true /\
  getActiveIssue (refs i) = Some Samples.window /\
  @StatusAlertSingle.rendered SampleHost.host i
  = Some {| bannerType := maintenance;
            bannerIssues := [Samples.window];
            bannerUpcoming := false |}.
Proof. repeat split. Qed.

(** The single-issue variant has no status group: its banner is the
    first notice that is not dismissed, of whatever type. *)
Lemma single_variant_first_in_order `{Host} (st : State) (now : Z)
      (issue : StatusIssue) :
  getActiveIssue st = Some issue ->
  exists b,
    StatusAlertSingle.banner now st = Some b /\
    bannerType b = getAlertType (labels issue) /\
    bannerIssues b = [issue].
Proof.
  intros Ea. unfold StatusAlertSingle.banner, StatusAlertSingle.alertType,
    StatusAlertSingle.activeIssue. rewrite Ea.
  eexists. repeat split.
Qed.

(* ===================================================================== *)
(** * Further properties of the metadata parser *)
(* ===================================================================== *)

Lemma search_Some_min (A : Type) (m : str -> option A) (s pre : str) (a : A) :
  search m s = Some (pre, a) ->
  exists t, s = pre ++ t /\ m t = Some a /\
            forall x y, pre = x ++ y -> y <> [] -> m (y ++ t) = None.
Proof.
  revert pre. induction s as [|c s IH]; simpl; intros pre.
  - destruct (m []) eqn:E; [|discriminate].
    intros [= <- <-]. exists []. repeat split; [exact E|].
    intros x y Exy Hy. destruct x, y; try discriminate. congruence.
  - destruct (m (c :: s)) eqn:E.
    + intros [= <- <-]. exists (c :: s). repeat split; [exact E|].
      intros x y Exy Hy. destruct x, y; try discriminate. congruence.
    + destruct (search m s) as [[pre' a']|] eqn:Es; [|discriminate].
      intros [= <- <-]. destruct (IH _ eq_refl) as (t & -> & Ht & Hmin).
      exists t. repeat split; [exact Ht|].
      intros [|d x] y Exy Hy.
      * simpl in Exy. subst y. exact E.
      * injection Exy as <- Exy. now apply (Hmin x y).
Qed.

Lemma cut_leftmost (p s pre post : str) :
  cut p s = Some (pre, post) -> leftmost p pre post s.
Proof.
  unfold cut. intros E.
  apply search_Some_min in E as (t & -> & Ht & Hmin).
  apply literal_Some in Ht as (r & -> & [= ->]).
  split; [reflexivity|]. intros a b Eab.
  destruct (Nat.le_gt_cases (List.length pre) (List.length a)) as [Hl|Hl];
    [exact Hl | exfalso].
  symmetry in Eab.
  destruct (app_split_le _ _ _ _ Eab ltac:(lia)) as (w & -> & Ew).
  assert (Hw : w <> []).
  { intros ->. rewrite app_nil_r in Hl. lia. }
  specialize (Hmin a w eq_refl Hw). rewrite <- Ew, literal_app in Hmin.
  discriminate.
Qed.

Lemma cut_None (p s : str) : cut p s = None -> ~ occurs p s.
Proof.
  unfold cut. intros E (a & b & ->).
  destruct (@leftmost_exists p (a ++ p ++ b)) as (pre & post & Hl);
    [now exists a, b|].
  pose proof Hl as [El _]. rewrite El in E.
  erewrite search_first in E; [discriminate | apply literal_app |].
  intros x y Exy Hy. apply literal_None. intros r.
  eapply leftmost_earlier; [exact Hl | exact Exy | exact Hy].
Qed.

Lemma leftmost_block_alone (inner tail : str) :
  leftmost closeTag inner tail (inner ++ closeTag ++ tail) ->
  leftmost openTag [] (inner ++ closeTag ++ []) (openTag ++ inner ++ closeTag)
  /\ leftmost closeTag inner [] (inner ++ closeTag ++ []).
Proof.
  intros [_ Hmin]. split.
  - split; [now rewrite app_nil_r|]. intros; simpl; lia.
  - split; [reflexivity|]. intros a b E. apply (Hmin a (b ++ tail)).
    rewrite app_nil_r in E.
    rewrite (app_assoc inner), E. now rewrite <- !app_assoc.
Qed.

(** X1. The optional fields come from the first comment block alone:
    the text before the block and the text after it do not change them. *)
Theorem fields_from_block_alone `{Host} (body lead inner tail : str) :
  leftmost openTag lead (inner ++ closeTag ++ tail) body ->
  leftmost closeTag inner tail (inner ++ closeTag ++ tail) ->
  fields (parseIssueBody body)
  = fields (parseIssueBody (openTag ++ inner ++ closeTag)).
Proof.
  intros Ho Hc. destruct (leftmost_block_alone Hc) as [Ho' Hc'].
  unfold fields, parseIssueBody.
  rewrite (commentMatch_leftmost Ho Hc), (commentMatch_leftmost Ho' Hc').
  reflexivity.
Qed.

Lemma fields_from_block_alone_witness :
  fields (@parseIssueBody SampleHost.host (body Samples.window))
  = fields (@parseIssueBody SampleHost.host
              (openTag
               ++ lit "
start: 2026-01-22T22:30:00+07:00
end: 2026-01-22T23:30:00+07:00
expectedDegraded: base-api, script-license-api
" ++ closeTag)).
Proof.
  refine (@fields_from_block_alone SampleHost.host (body Samples.window)
            [] _ (lit "
The database is upgraded.") _ _).
  - apply cut_leftmost. reflexivity.
  - apply cut_leftmost. reflexivity.
Defined.

(** X2. A key pattern captures the rest of the line: after the leftmost
    occurrence of the key and the white space that follows it (line
    breaks included, so a key with nothing on its line takes the next
    line), the value runs up to the next line terminator or the end. *)
Theorem key_captures_rest_of_line (key metadata pre sp v rest : str) :
  leftmost key pre (sp ++ v ++ rest) metadata ->
  forallb isWhiteSpace sp = true ->
  match v with c :: _ => isWhiteSpace c = false | [] => False end ->
  forallb dot v = true ->
  match rest with [] => True | d :: _ => isLineTerminator d = true end ->
  keyMatch key metadata = Some v.
Proof.
  intros Hk Hsp Hv Hd Hr. destruct v as [|c v']; [contradiction|].
  now apply (@keyMatch_leftmost key metadata pre sp (c :: v') rest c v').
Qed.

Lemma key_captures_rest_of_line_witness :
  keyMatch (lit "start:") (lit "start:
end: 2026-01-22T23:30:00+07:00
expectedDown: base-api")
  = Some (lit "end: 2026-01-22T23:30:00+07:00").
Proof.
  apply (@key_captures_rest_of_line (lit "start:") _ [] [10%N]
           (lit "end: 2026-01-22T23:30:00+07:00")
           (lit "
expectedDown: base-api")).
  - apply cut_leftmost. reflexivity.
  - reflexivity.
  - reflexivity.
  - reflexivity.
  - reflexivity.
Defined.

(** X3. What a key pattern captures is never empty, holds no line
    terminator, and stands in the metadata after the key and a run of
    white space. *)
Theorem key_value_single_line (key metadata v : str) :
  keyMatch key metadata = Some v ->
  v <> [] /\ forallb dot v = true /\
  exists pre sp rest,
    metadata = pre ++ key ++ sp ++ v ++ rest /\
    forallb isWhiteSpace sp = true.
Proof.
  intros Hk. destruct (keyMatch_line _ _ Hk) as [Hne Hd].
  repeat split; [exact Hne | exact Hd |].
  unfold keyMatch in Hk.
  destruct (search _ metadata) as [[pre g]|] eqn:E; [|discriminate].
  injection Hk as ->. apply search_Some in E as (t & -> & E).
  apply literal_Some in E as (r1 & -> & E).
  apply star_Some in E as (sp & r2 & -> & Hsp & E).
  destruct r2 as [|c r2]; [discriminate|]. simpl in E.
  destruct (dot c); [|discriminate].
  apply star_Some in E as (g2 & r3 & -> & _ & [= <-]).
  now exists pre, sp, r3.
Qed.

Lemma key_value_single_line_witness :
  keyMatch (lit "start:") (lit "start: 2026-01-22T22:30:00+07:00
end: 2026-01-22T23:30:00+07:00")
  = Some (lit "2026-01-22T22:30:00+07:00") /\
  lit "2026-01-22T22:30:00+07:00" <> [] /\
  forallb dot (lit "2026-01-22T22:30:00+07:00") = true.
Proof.
  split; [reflexivity|].
  destruct (@key_value_single_line (lit "start:")
              (lit "start: 2026-01-22T22:30:00+07:00
end: 2026-01-22T23:30:00+07:00")
              (lit "2026-01-22T22:30:00+07:00") eq_refl) as (Hne & Hd & _).
  split; [exact Hne | exact Hd].
Defined.

(** X4. A key that ends the metadata, with nothing after it, does not
    match: the field stays absent. *)
Theorem key_without_value_absent (key pre : str) :
  key <> [] ->
  leftmost key pre [] (pre ++ key) ->
  keyMatch key (pre ++ key) = None.
Proof.
  intros Hne Hl. unfold keyMatch. rewrite search_None; [reflexivity|].
  intros x t E.
  destruct (Nat.le_gt_cases (List.length pre) (List.length x)) as [Hle|Hgt].
  - destruct (app_split_le _ _ _ _ E Hle) as (w & -> & Ek).
    destruct w as [|c w].
    + simpl in Ek. subst t. rewrite <- (app_nil_r key) at 2.
      rewrite literal_app. reflexivity.
    + apply literal_None. intros r Er.
      apply (f_equal (@List.length char)) in Er.
      apply (f_equal (@List.length char)) in Ek.
      rewrite length_app in Er, Ek. simpl in *. lia.
  - symmetry in E.
    destruct (app_split_le _ _ _ _ E ltac:(lia)) as (w & Ep & Et).
    apply literal_None. intros r Er.
    assert (Hw : w <> []).
    { intros ->. rewrite app_nil_r in Ep. subst x. lia. }
    refine (@leftmost_earlier key pre [] _ x w r Hl Ep Hw _).
    rewrite app_nil_r. congruence.
Qed.

Lemma key_without_value_absent_witness :
  keyMatch (lit "end:") (lit "start: 2026-01-22T22:30:00+07:00
end:") = None.
Proof.
  apply (@key_without_value_absent (lit "end:")
           (lit "start: 2026-01-22T22:30:00+07:00
")).
  - discriminate.
  - apply cut_leftmost. reflexivity.
Defined.

(** X5. A block that holds neither schedule key leaves [start] and
    [end] absent, so the notice counts as active and never as upcoming,
    at every instant. *)
Theorem block_without_schedule `{Host} (body metadata : str) (now : Z) :
  commentMatch body = Some metadata ->
  ~ occurs (lit "start:") metadata ->
  ~ occurs (lit "end:") metadata ->
  start (parseIssueBody body) = None /\
  end_ (parseIssueBody body) = None /\
  isActiveSchedule now (parseIssueBody body) = true /\
  isUpcoming now (parseIssueBody body) = false.
Proof.
  intros Hm Hs He. unfold isActiveSchedule, isUpcoming, parseIssueBody.
  rewrite Hm. simpl.
  rewrite (keyMatch_absent Hs), (keyMatch_absent He). now repeat split.
Qed.

Lemma block_without_schedule_witness :
  isActiveSchedule Samples.afterWindow
                   (@parseIssueBody SampleHost.host Samples.downList) = true /\
  isUpcoming Samples.afterWindow
             (@parseIssueBody SampleHost.host Samples.downList) = false.
Proof.
  destruct (@block_without_schedule SampleHost.host Samples.downList
              (lit "expectedDown: a,,b
expectedDegraded:  base-api , script-license-api")
              Samples.afterWindow eq_refl) as (_ & _ & Ha & Hu).
  - apply cut_None. reflexivity.
  - apply cut_None. reflexivity.
  - split; [exact Ha | exact Hu].
Defined.

Lemma In_dropWhile (p : char -> bool) (x : char) (s : str) :
  In x (dropWhile p s) -> In x s.
Proof.
  induction s as [|c s IH]; simpl; [tauto|].
  destruct (p c); [right; now apply IH | tauto].
Qed.

Lemma In_trim (x : char) (s : str) : In x (trim s) -> In x s.
Proof.
  unfold trim, trimEnd, trimStart. intros Hx.
  apply in_rev, In_dropWhile, in_rev in Hx. now apply In_dropWhile in Hx.
Qed.

Lemma serviceList_wellformed (v : str) :
  serviceList v <> [] /\
  Forall trimmed (serviceList v) /\
  Forall (fun seg => ~ In comma seg) (serviceList v).
Proof.
  unfold serviceList. repeat split.
  - intros E. apply map_eq_nil in E. now apply split_nonempty in E.
  - apply Forall_forall. intros x Hx.
    apply in_map_iff in Hx as (y & <- & _). apply trim_trimmed.
  - apply Forall_forall. intros x Hx.
    apply in_map_iff in Hx as (y & <- & Hy). intros Hc.
    apply In_trim in Hc.
    pose proof (split_no_sep comma (trim v)) as Hs.
    rewrite Forall_forall in Hs. now apply (Hs y Hy).
Qed.

(** X6. A service list that the parser returns is never empty, and none
    of its names holds a comma or starts or ends with white space. *)
Theorem parsed_service_lists `{Host} (body : str) (l : list str) :
  expectedDown (parseIssueBody body) = Some l
  \/ expectedDegraded (parseIssueBody body) = Some l ->
  l <> [] /\ Forall trimmed l /\ Forall (fun seg => ~ In comma seg) l.
Proof.
  unfold parseIssueBody.
  destruct (commentMatch body) as [metadata|]; simpl;
    [|intros [E|E]; discriminate].
  intros [E|E].
  - destruct (keyMatch (lit "expectedDown:") metadata) as [v|];
      [|discriminate].
    injection E as <-. apply serviceList_wellformed.
  - destruct (keyMatch (lit "expectedDegraded:") metadata) as [v|];
      [|discriminate].
    injection E as <-. apply serviceList_wellformed.
Qed.

Lemma parsed_service_lists_witness :
  expectedDegraded (@parseIssueBody SampleHost.host Samples.downList)
  = Some [lit "base-api"; lit "script-license-api"] /\
  [lit "base-api"; lit "script-license-api"] <> [] /\
  Forall trimmed [lit "base-api"; lit "script-license-api"] /\
  Forall (fun seg => ~ In comma seg)
         [lit "base-api"; lit "script-license-api"].
Proof.
  split; [reflexivity|].
  exact (@parsed_service_lists SampleHost.host Samples.downList
           [lit "base-api"; lit "script-license-api"]
           (or_intror eq_refl)).
Defined.

(** X7. With a comment block in the body, the description starts and
    ends without white space. *)
Theorem description_trimmed `{Host} (body : str) :
  hasCommentBlock body -> trimmed (description (parseIssueBody body)).
Proof.
  intros Hb. unfold parseIssueBody.
  destruct (commentMatch body) eqn:E.
  - simpl. apply trim_trimmed.
  - now apply commentMatch_None_iff in E.
Qed.

Lemma description_trimmed_witness :
  trimmed (description (@parseIssueBody SampleHost.host Samples.spaced)).
Proof.
  apply (@description_trimmed SampleHost.host Samples.spaced).
  exists (lit "  hi "), (lit " x "), (lit " there  "). reflexivity.
Defined.

(** ** Writing a service list and reading it back *)

Lemma cleanStart_trimStart (s : str) : cleanStart s -> trimStart s = s.
Proof.
  destruct s as [|c s]; [reflexivity|].
  unfold trimStart. simpl. now intros ->.
Qed.

Lemma cleanEnd_trimEnd (s : str) : cleanStart (rev s) -> trimEnd s = s.
Proof.
  intros Hs. unfold trimEnd.
  fold (trimStart (rev s)). rewrite (cleanStart_trimStart _ Hs).
  apply rev_involutive.
Qed.

Lemma trimmed_clean (s : str) :
  trimmed s -> cleanStart s /\ cleanStart (rev s).
Proof.
  unfold trimmed. intros E. split.
  - destruct s as [|c s]; [exact I|]. simpl.
    destruct (trimEnd_split (trimStart (c :: s))) as (w & Ew & _).
    fold (trim (c :: s)) in Ew. rewrite E in Ew.
    now apply (@dropWhile_head isWhiteSpace (c :: s) c (s ++ w)).
  - destruct (rev s) as [|c r] eqn:Er; [exact I|]. simpl.
    apply (@trimEnd_last (trimStart s) (rev r)).
    fold (trim s). rewrite E.
    apply (f_equal (@rev char)) in Er. rewrite rev_involutive in Er.
    exact Er.
Qed.

Lemma cleanStart_app (a b : str) :
  cleanStart a -> (a = [] -> cleanStart b) -> cleanStart (a ++ b).
Proof.
  destruct a as [|c a]; simpl; auto.
Qed.

Lemma join_cleanStart (segs : list str) :
  Forall cleanStart segs -> cleanStart (join comma segs).
Proof.
  destruct segs as [|seg segs]; [intros; exact I|].
  intros Hs. inversion Hs as [|? ? Hseg _]; subst.
  destruct segs as [|s2 segs]; [exact Hseg|].
  change (cleanStart (seg ++ comma :: join comma (s2 :: segs))).
  apply cleanStart_app; [exact Hseg | reflexivity].
Qed.

Lemma join_cleanEnd (segs : list str) :
  Forall (fun seg => cleanStart (rev seg)) segs ->
  cleanStart (rev (join comma segs)).
Proof.
  induction segs as [|seg segs IH]; intros Hs; [exact I|].
  inversion Hs as [|? ? Hseg Hrest]; subst.
  destruct segs as [|s2 segs]; [exact Hseg|].
  change (cleanStart (rev (seg ++ comma :: join comma (s2 :: segs)))).
  rewrite rev_app_distr. simpl rev at 1. rewrite <- app_assoc.
  apply cleanStart_app; [now apply IH | reflexivity].
Qed.

Lemma split_single (sep : char) (seg : str) :
  ~ In sep seg -> split sep seg = [seg].
Proof.
  induction seg as [|c seg IH]; intros Hs; [reflexivity|].
  cbn [split]. destruct (N.eqb c sep) eqn:E.
  - apply N.eqb_eq in E. subst. destruct Hs. now left.
  - rewrite IH; [reflexivity|]. intros Hin. apply Hs. now right.
Qed.

Lemma split_app_sep (sep : char) (seg rest : str) :
  ~ In sep seg -> split sep (seg ++ sep :: rest) = seg :: split sep rest.
Proof.
  induction seg as [|c seg IH]; intros Hs.
  - cbn [app split]. now rewrite N.eqb_refl.
  - cbn [app split]. destruct (N.eqb c sep) eqn:E.
    + apply N.eqb_eq in E. subst. destruct Hs. now left.
    + rewrite IH; [reflexivity|]. intros Hin. apply Hs. now right.
Qed.

Lemma split_join (sep : char) (segs : list str) :
  segs <> [] ->
  Forall (fun seg => ~ In sep seg) segs ->
  split sep (join sep segs) = segs.
Proof.
  induction segs as [|seg segs IH]; intros Hne Hs; [congruence|].
  inversion Hs as [|? ? Hseg Hrest]; subst. clear Hne Hs.
  destruct segs as [|s2 segs].
  - now apply split_single.
  - change (split sep (seg ++ sep :: join sep (s2 :: segs))
            = seg :: s2 :: segs).
    rewrite split_app_sep by exact Hseg.
    now rewrite (IH ltac:(discriminate) Hrest).
Qed.

(** X8. A list of service names written with commas between them is
    read back as it was: for a list that is not empty, whose names hold
    no comma and neither start nor end with white space, splitting the
    joined text gives the list again. *)
Theorem service_list_round_trip (names : list str) :
  names <> [] ->
  Forall trimmed names ->
  Forall (fun seg => ~ In comma seg) names ->
  serviceList (join comma names) = names.
Proof.
  intros Hne Ht Hc. unfold serviceList.
  assert (Hj : trim (join comma names) = join comma names).
  { unfold trim. rewrite cleanStart_trimStart.
    - apply cleanEnd_trimEnd, join_cleanEnd.
      eapply Forall_impl; [|exact Ht]. intros s Hs.
      now apply trimmed_clean.
    - apply join_cleanStart.
      eapply Forall_impl; [|exact Ht]. intros s Hs.
      now apply trimmed_clean. }
  rewrite Hj, split_join by assumption.
  clear Hne Hc Hj. induction Ht as [|s l Hs _ IH]; [reflexivity|].
  simpl. now rewrite Hs, IH.
Qed.

Lemma service_list_round_trip_witness :
  serviceList (lit "base-api,,script license api")
  = [lit "base-api"; []; lit "script license api"].
Proof.
  apply (@service_list_round_trip
           [lit "base-api"; []; lit "script license api"]).
  - discriminate.
  - repeat constructor.
  - repeat constructor; vm_compute; intuition discriminate.
Defined.

(* ===================================================================== *)
(** * Further properties of the schedule predicates *)
(* ===================================================================== *)

(** X9. With both bounds set, a notice is never upcoming and active at
    once, whether the bounds are valid or not. *)
Theorem upcoming_excludes_active (now : Z) (p : ParsedStatusInfo)
        (s e : Date) :
  start p = Some s -> end_ p = Some e ->
  isUpcoming now p = true -> isActiveSchedule now p = false.
Proof.
  unfold isUpcoming, isActiveSchedule. intros -> ->.
  destruct s as [|x]; simpl; [discriminate|].
  intros Hu. apply Z.ltb_lt in Hu.
  destruct (Z.leb_spec x now); [lia | reflexivity].
Qed.

Lemma upcoming_excludes_active_witness :
  isActiveSchedule 1769000000000
    (@parseIssueBody SampleHost.host (body Samples.window)) = false.
Proof.
  exact (@upcoming_excludes_active 1769000000000
           (@parseIssueBody SampleHost.host (body Samples.window))
           (Instant 1769095800000) (Instant 1769099400000)
           eq_refl eq_refl eq_refl).
Defined.

(** X10. Time only moves a notice forward: one that is not upcoming
    stays so at every later instant, one that is upcoming was so at
    every earlier instant, and the instants at which a notice is active
    have no gap. *)
Theorem schedule_in_time (p : ParsedStatusInfo) (t1 t2 t3 : Z) :
  (t1 <= t2 <= t3)%Z ->
  (isUpcoming t2 p = true -> isUpcoming t1 p = true) /\
  (isUpcoming t2 p = false -> isUpcoming t3 p = false) /\
  (isActiveSchedule t1 p = true -> isActiveSchedule t3 p = true ->
   isActiveSchedule t2 p = true).
Proof.
  intros Ht. unfold isUpcoming, isActiveSchedule.
  destruct (start p) as [[|s]|], (end_ p) as [[|e]|]; simpl;
    repeat split; try congruence;
    rewrite ?andb_true_iff, ?Z.ltb_lt, ?Z.ltb_ge, ?Z.leb_le; lia.
Qed.

Lemma schedule_in_time_witness :
  isUpcoming Samples.afterWindow
             (@parseIssueBody SampleHost.host (body Samples.window)) = false.
Proof.
  refine (proj1 (proj2 (@schedule_in_time
                          (@parseIssueBody SampleHost.host
                             (body Samples.window))
                          0 Samples.duringWindow Samples.afterWindow _))
                eq_refl).
  unfold Samples.duringWindow, Samples.afterWindow. lia.
Defined.

(* ===================================================================== *)
(** * Further properties of the label functions *)
(* ===================================================================== *)

Lemma existsb_Permutation (A : Type) (f : A -> bool) (l l' : list A) :
  Permutation l l' -> existsb f l = existsb f l'.
Proof.
  intros Hp. apply eq_true_iff_eq. rewrite !existsb_exists.
  split; intros (x & Hx & Hf); exists x; split; try exact Hf.
  - now apply (Permutation_in _ Hp).
  - now apply (Permutation_in _ (Permutation_sym Hp)).
Qed.

(** X11. The alert type does not depend on the order of the labels. *)
Theorem getAlertType_order `{Host} (ls ls' : list Label) :
  Permutation ls ls' -> getAlertType ls = getAlertType ls'.
Proof.
  intros Hp. unfold getAlertType, includesStr, labelNames.
  now rewrite !(existsb_Permutation _ (Permutation_map _ Hp)).
Qed.

Lemma getAlertType_order_witness :
  @getAlertType SampleHost.host
    (List.map Samples.label ["core-api"; "Status"; "Maintenance"]%string)
  = @getAlertType SampleHost.host
      (List.map Samples.label ["Maintenance"; "core-api"; "Status"]%string).
Proof.
  apply (@getAlertType_order SampleHost.host).
  apply Permutation_sym.
  exact (Permutation_cons_append
           (List.map Samples.label ["core-api"; "Status"]%string)
           (Samples.label "Maintenance")).
Defined.

(** X12. The affected services are label names in the order and case
    of the labels; a name is among them exactly when its lower case is
    none of the six system labels. *)
Theorem affected_services_spec `{Host} (ls : list Label) :
  Subseq (getAffectedServicesFromLabels ls) (List.map name ls) /\
  Forall (fun n => includesStr systemLabels (toLowerCase n) = false)
         (getAffectedServicesFromLabels ls) /\
  Forall (fun l => includesStr systemLabels (toLowerCase (name l)) = true
                   \/ In (name l) (getAffectedServicesFromLabels ls))
         ls.
Proof.
  unfold getAffectedServicesFromLabels. repeat split.
  - induction ls as [|l ls IH]; [constructor|].
    cbn [List.filter List.map].
    destruct (negb (includesStr systemLabels (toLowerCase (name l))));
      cbn [List.map]; constructor; exact IH.
  - apply Forall_forall. intros n Hn.
    apply in_map_iff in Hn as (l & <- & Hl).
    apply filter_In in Hl as [_ Hl]. now apply negb_true_iff in Hl.
  - apply Forall_forall. intros l Hl.
    destruct (includesStr systemLabels (toLowerCase (name l))) eqn:E;
      [now left | right].
    apply in_map, filter_In. split; [exact Hl | now rewrite E].
Qed.

(* ===================================================================== *)
(** * Further properties of the fetcher *)
(* ===================================================================== *)

(** X13. After a fetch the error is unset exactly when the fetch did
    not fail, whatever error was held before, and [isLoading] is
    false. *)
Theorem error_tells_failure (o : FetchOutcome) (st : State) :
  (error (fetchStatusIssues o st) = None <-> fetchFails o = false) /\
  isLoading (fetchStatusIssues o st) = false.
Proof.
  split; [|reflexivity].
  unfold fetchStatusIssues, tryFetch.
  destruct o as [e|[|] code [e|m| |items]]; simpl;
    split; try reflexivity; try discriminate.
Qed.

(** X14. A fetch does not touch the dismissals: the stored ids and
    [isDismissed] are as before, so of a new list only the notices that
    were not dismissed are active. *)
Theorem fetch_keeps_dismissals (o : FetchOutcome) (st : State)
        (code : Z) (items : list StatusIssue) :
  sessionStorage (fetchStatusIssues o st) = sessionStorage st /\
  isDismissed (fetchStatusIssues o st) = isDismissed st /\
  getAllActiveIssues (fetchStatusIssues (Response true code (JsonItems items)) st)
  = List.filter (fun issue => negb (isAlertDismissed st (id issue))) items.
Proof.
  repeat split.
  - unfold fetchStatusIssues, tryFetch.
    now destruct o as [e|[|] c [e|m| |l]].
  - unfold fetchStatusIssues, tryFetch.
    now destruct o as [e|[|] c [e|m| |l]].
Qed.

(** X15. A fetch that does not fail erases what an earlier fetch left:
    the state after it is the same whether or not another fetch came
    before. Repeating a fetch with the same outcome changes nothing. *)
Theorem last_fetch_wins (o1 o2 : FetchOutcome) (st : State) :
  fetchFails o2 = false ->
  fetchStatusIssues o2 (fetchStatusIssues o1 st) = fetchStatusIssues o2 st /\
  fetchStatusIssues o1 (fetchStatusIssues o1 st) = fetchStatusIssues o1 st.
Proof.
  intros Hf. split.
  - unfold fetchStatusIssues, tryFetch.
    destruct o2 as [e|[|] c [e|m| |l]]; try discriminate;
      destruct o1 as [e'|[|] c' [e'|m'| |l']]; reflexivity.
  - unfold fetchStatusIssues, tryFetch.
    destruct o1 as [e|[|] c [e|m| |l]]; reflexivity.
Qed.

Lemma last_fetch_wins_witness :
  let st := Samples.fresh [Samples.incident] in
  fetchStatusIssues (Response true 200 (JsonItems [Samples.window]))
    (fetchStatusIssues (Response false 403 JsonNoItems) st)
  = fetchStatusIssues (Response true 200 (JsonItems [Samples.window])) st.
Proof.
  intros st.
  exact (proj1 (@last_fetch_wins (Response false 403 JsonNoItems)
                  (Response true 200 (JsonItems [Samples.window])) st
                  eq_refl)).
Defined.

(* ===================================================================== *)
(** * Further properties of the dismissal store *)
(* ===================================================================== *)

Lemma dismissedAlerts_dismissAlert (a : Z) (st : State) :
  dismissedAlerts (dismissAlert a st)
  = if includesNum (dismissedAlerts st) a
    then dismissedAlerts st else dismissedAlerts st ++ [a].
Proof.
  unfold dismissAlert.
  now destruct (includesNum (dismissedAlerts st) a).
Qed.

Lemma isAlertDismissed_dismissAlert (a x : Z) (st : State) :
  isAlertDismissed (dismissAlert a st) x
  = (Z.eqb x a || isAlertDismissed st x)%bool.
Proof.
  unfold isAlertDismissed. rewrite dismissedAlerts_dismissAlert.
  destruct (includesNum (dismissedAlerts st) a) eqn:E.
  - destruct (Z.eqb_spec x a) as [->|_]; [now rewrite E | reflexivity].
  - unfold includesNum. rewrite existsb_app. simpl.
    now rewrite orb_false_r, orb_comm.
Qed.

Lemma issues_dismissAlert (a : Z) (st : State) :
  issues (dismissAlert a st) = issues st.
Proof.
  unfold dismissAlert. now destruct (includesNum (dismissedAlerts st) a).
Qed.

Lemma find_hd_filter (A : Type) (f : A -> bool) (l : list A) :
  List.find f l = hd_error (List.filter f l).
Proof.
  induction l as [|x l IH]; [reflexivity|]. simpl.
  now destruct (f x).
Qed.

(** X16. Looking an id up after a dismissal: it is dismissed when it is
    the id just dismissed or was dismissed before; the notices, the
    loading flag and the error are not touched. *)
Theorem dismiss_then_lookup (a x : Z) (st : State) :
  isAlertDismissed (dismissAlert a st) x
  = (Z.eqb x a || isAlertDismissed st x)%bool /\
  issues (dismissAlert a st) = issues st /\
  isLoading (dismissAlert a st) = isLoading st /\
  error (dismissAlert a st) = error st.
Proof.
  split; [apply isAlertDismissed_dismissAlert|].
  unfold dismissAlert.
  now destruct (includesNum (dismissedAlerts st) a).
Qed.

(** X17. The stored array never gets an id twice: if it holds none
    twice, it holds none twice after any sequence of dismissals. *)
Theorem stored_ids_distinct (ids : list Z) (st : State) :
  NoDup (dismissedAlerts st) ->
  NoDup (dismissedAlerts
           (List.fold_left (fun s a => dismissAlert a s) ids st)).
Proof.
  revert st. induction ids as [|a ids IH]; intros st Hn; [exact Hn|].
  simpl. apply IH. rewrite dismissedAlerts_dismissAlert.
  destruct (includesNum (dismissedAlerts st) a) eqn:E; [exact Hn|].
  apply NoDup_app; [exact Hn | repeat constructor; simpl; tauto |].
  intros x Hx [<-|[]]. apply includesNum_In in Hx. congruence.
Qed.

Lemma stored_ids_distinct_witness :
  dismissedAlerts
    (List.fold_left (fun s a => dismissAlert a s) [101; 102; 101]%Z
                    (Samples.fresh []))
  = [101; 102]%Z /\
  NoDup (dismissedAlerts
           (List.fold_left (fun s a => dismissAlert a s) [101; 102; 101]%Z
                           (Samples.fresh []))).
Proof.
  split; [reflexivity|].
  apply (@stored_ids_distinct [101; 102; 101]%Z (Samples.fresh [])).
  constructor.
Defined.

(** X18. The order of two dismissals does not matter to what is
    dismissed nor to the active notices, though the stored array keeps
    the order. *)
Theorem dismissals_commute (a b : Z) (st : State) :
  (forall x, isAlertDismissed (dismissAlert a (dismissAlert b st)) x
             = isAlertDismissed (dismissAlert b (dismissAlert a st)) x) /\
  getAllActiveIssues (dismissAlert a (dismissAlert b st))
  = getAllActiveIssues (dismissAlert b (dismissAlert a st)) /\
  getActiveIssue (dismissAlert a (dismissAlert b st))
  = getActiveIssue (dismissAlert b (dismissAlert a st)).
Proof.
  assert (Hx : forall x,
             isAlertDismissed (dismissAlert a (dismissAlert b st)) x
             = isAlertDismissed (dismissAlert b (dismissAlert a st)) x).
  { intros x. rewrite !isAlertDismissed_dismissAlert.
    now destruct (Z.eqb x a), (Z.eqb x b). }
  assert (Hi : issues (dismissAlert a (dismissAlert b st))
               = issues (dismissAlert b (dismissAlert a st))).
  { now rewrite !issues_dismissAlert. }
  repeat split; [exact Hx | |].
  - unfold getAllActiveIssues. rewrite Hi. apply filter_ext.
    intros issue. now rewrite Hx.
  - unfold getActiveIssue. rewrite !find_hd_filter, Hi. f_equal.
    apply filter_ext. intros issue. now rewrite Hx.
Qed.

(** X19. The active issue is the first of the active issues, and there
    is none exactly when there are no active issues. *)
Theorem active_issue_is_first (st : State) :
  getActiveIssue st = hd_error (getAllActiveIssues st) /\
  (getActiveIssue st = None <-> getAllActiveIssues st = []).
Proof.
  assert (E : getActiveIssue st = hd_error (getAllActiveIssues st))
    by apply find_hd_filter.
  split; [exact E|]. rewrite E.
  destruct (getAllActiveIssues st); simpl; split; congruence.
Qed.

Lemma filter_filter_and (A : Type) (f g : A -> bool) (l : list A) :
  List.filter f (List.filter g l) = List.filter (fun x => g x && f x) l.
Proof.
  induction l as [|x l IH]; [reflexivity|]. simpl.
  destruct (g x); simpl; [|exact IH]. destruct (f x); now rewrite IH.
Qed.

Lemma getAllActiveIssues_dismissAlert (a : Z) (st : State) :
  getAllActiveIssues (dismissAlert a st)
  = List.filter (fun issue => negb (Z.eqb (id issue) a))
                (getAllActiveIssues st).
Proof.
  unfold getAllActiveIssues.
  rewrite issues_dismissAlert, filter_filter_and. apply filter_ext.
  intros issue. rewrite isAlertDismissed_dismissAlert.
  now destruct (Z.eqb (id issue) a), (isAlertDismissed st (id issue)).
Qed.

(** X20. A dismissal takes from the active issues exactly those that
    carry the dismissed id, and keeps the others in their order. *)
Theorem dismiss_removes_by_id (a : Z) (st : State) :
  getAllActiveIssues (dismissAlert a st)
  = List.filter (fun issue => negb (Z.eqb (id issue) a))
                (getAllActiveIssues st) /\
  Subseq (getAllActiveIssues (dismissAlert a st)) (getAllActiveIssues st).
Proof.
  rewrite getAllActiveIssues_dismissAlert. split; [reflexivity|].
  apply filter_Subseq.
Qed.

(* ===================================================================== *)
(** * Further properties of the two components *)
(* ===================================================================== *)

Section Components.
Context `{Host}.

Lemma allStatusIssues_active (st : State) (issue : StatusIssue) :
  In issue (StatusAlertAggregated.allStatusIssues st) ->
  In issue (getAllActiveIssues st) /\ tagged "status" issue = true.
Proof.
  intros Hi. apply filter_In in Hi as [Hi Hf].
  apply andb_true_iff in Hf as [Ht Hd]. split; [|exact Ht].
  apply filter_In. now split.
Qed.

Lemma hasStatusAlert_active (st : State) :
  StatusAlertAggregated.hasStatusAlert st = true ->
  exists issue, getActiveIssue st = Some issue.
Proof.
  unfold StatusAlertAggregated.hasStatusAlert. intros Hs.
  destruct (StatusAlertAggregated.allStatusIssues st) as [|i l] eqn:E;
    [discriminate|].
  assert (Hi : In i (getAllActiveIssues st)).
  { apply allStatusIssues_active. rewrite E. now left. }
  unfold getActiveIssue. rewrite find_hd_filter.
  fold (getAllActiveIssues st).
  destruct (getAllActiveIssues st) as [|j l']; [contradiction|].
  now exists j.
Qed.

Lemma fold_dismiss_lookup (l : list StatusIssue) (st : State) (x : Z) :
  isAlertDismissed
    (List.fold_left (fun s issue => dismissAlert (id issue) s) l st) x
  = (existsb (fun issue => Z.eqb x (id issue)) l
     || isAlertDismissed st x)%bool.
Proof.
  revert st. induction l as [|i l IH]; intros st; [reflexivity|].
  simpl. rewrite IH, isAlertDismissed_dismissAlert.
  now destruct (Z.eqb x (id i)), (existsb _ l).
Qed.

Lemma fold_dismiss_issues (l : list StatusIssue) (st : State) :
  issues (List.fold_left (fun s issue => dismissAlert (id issue) s) l st)
  = issues st.
Proof.
  revert st. induction l as [|i l IH]; intros st; [reflexivity|].
  simpl. now rewrite IH, issues_dismissAlert.
Qed.

Lemma filter_nil (A : Type) (f : A -> bool) (l : list A) :
  (forall x, In x l -> f x = false) -> List.filter f l = [].
Proof.
  induction l as [|x l IH]; intros Hf; [reflexivity|]. simpl.
  rewrite (Hf x) by now left. apply IH. intros y Hy. apply Hf. now right.
Qed.

Lemma filter_shorter (A : Type) (f : A -> bool) (l : list A) (x : A) :
  In x l -> f x = false ->
  (List.length (List.filter f l) < List.length l)%nat.
Proof.
  induction l as [|y l IH]; intros Hx Hf; [contradiction|]. simpl.
  pose proof (filter_length_le f l) as Hle.
  destruct Hx as [->|Hx].
  - rewrite Hf. lia.
  - specialize (IH Hx Hf). destruct (f y); simpl; lia.
Qed.

(** X21. The two variants differ only through the status group: while
    no status notice is pending they show the same banner. *)
Theorem variants_agree_without_status (st : State) (now : Z) :
  StatusAlertAggregated.hasStatusAlert st = false ->
  StatusAlertAggregated.banner now st = StatusAlertSingle.banner now st.
Proof.
  intros Hs. destruct (getActiveIssue st) as [issue|] eqn:Ea.
  - destruct (first_notice_shown st now Ea Hs) as [_ ->].
    unfold StatusAlertSingle.banner, StatusAlertSingle.isMaintenanceUpcoming,
      StatusAlertSingle.parsedInfo, StatusAlertSingle.alertType,
      StatusAlertSingle.activeIssue.
    rewrite Ea. now destruct (getAlertType (labels issue)).
  - unfold StatusAlertAggregated.banner, StatusAlertSingle.banner,
      StatusAlertAggregated.activeIssue, StatusAlertSingle.activeIssue.
    now rewrite Hs, Ea.
Qed.

Lemma aggregated_banner_None (st : State) (now : Z) :
  StatusAlertAggregated.banner now st = None <-> getActiveIssue st = None.
Proof.
  unfold StatusAlertAggregated.banner, StatusAlertAggregated.activeIssue.
  destruct (StatusAlertAggregated.hasStatusAlert st) eqn:Hs.
  - destruct (hasStatusAlert_active st Hs) as (i & ->). simpl.
    split; discriminate.
  - destruct (getActiveIssue st); simpl; split; congruence.
Qed.

(** X22. In both variants nothing is rendered exactly when the
    component is hidden, or loading, or every fetched notice was
    dismissed when the bindings were run. *)
Theorem no_banner_iff_all_dismissed (i : Instance) :
  (StatusAlertAggregated.rendered i = None
   <-> isVisible i = false \/ isLoading (refs i) = true
       \/ getAllActiveIssues (seen i) = []) /\
  (StatusAlertSingle.rendered i = None
   <-> isVisible i = false \/ isLoading (refs i) = true
       \/ getAllActiveIssues (seen i) = []) /\
  (getAllActiveIssues (seen i) = []
   <-> Forall (fun issue => isAlertDismissed (seen i) (id issue) = true)
              (issues (refs i))).
Proof.
  assert (E : getActiveIssue (seen i) = None
              <-> getAllActiveIssues (seen i) = []).
  { unfold getActiveIssue. rewrite find_hd_filter.
    fold (getAllActiveIssues (seen i)).
    destruct (getAllActiveIssues (seen i)); simpl; split; congruence. }
  assert (Es : StatusAlertSingle.banner (seenClock i) (seen i) = None
               <-> getActiveIssue (seen i) = None).
  { unfold StatusAlertSingle.banner, StatusAlertSingle.activeIssue.
    destruct (getActiveIssue (seen i)); split; congruence. }
  pose proof (aggregated_banner_None (seen i) (seenClock i)) as Ea.
  unfold StatusAlertAggregated.rendered, StatusAlertSingle.rendered.
  split; [|split].
  - destruct (isVisible i), (isLoading (refs i)); simpl;
      rewrite ?Ea, ?E; intuition congruence.
  - destruct (isVisible i), (isLoading (refs i)); simpl;
      rewrite ?Es, ?E; intuition congruence.
  - change (issues (refs i)) with (issues (seen i)). split.
    + intros Hn. apply Forall_forall. intros issue Hi.
      destruct (isAlertDismissed (seen i) (id issue)) eqn:Ed; [reflexivity|].
      assert (Hin : In issue (getAllActiveIssues (seen i)))
        by (apply filter_In; now rewrite Ed).
      rewrite Hn in Hin. contradiction.
    + intros Hf. apply filter_nil. intros issue Hi.
      rewrite Forall_forall in Hf. now rewrite (Hf issue Hi).
Qed.

(** X23. What stands behind a banner that the aggregated variant
    renders: at least one notice, each of them fetched and not dismissed
    when the bindings were run; and the banner has type [status]
    exactly when the bindings saw a status notice pending. *)
Theorem banner_issues_active (i : Instance) (b : Banner) :
  StatusAlertAggregated.rendered i = Some b ->
  bannerIssues b <> [] /\
  Forall (fun issue => In issue (issues (refs i))
                       /\ isAlertDismissed (seen i) (id issue) = false)
         (bannerIssues b) /\
  (bannerType b = status
   <-> StatusAlertAggregated.hasStatusAlert (seen i) = true).
Proof.
  unfold StatusAlertAggregated.rendered.
  destruct (isVisible i && negb (isLoading (refs i))); [|discriminate].
  change (issues (refs i)) with (issues (seen i)).
  generalize (seen i) (seenClock i). clear i. intros st now Hb.
  destruct (StatusAlertAggregated.hasStatusAlert st) eqn:Hs.
  - pose proof Hs as Hs'.
    unfold StatusAlertAggregated.hasStatusAlert in Hs'.
    destruct (StatusAlertAggregated.allStatusIssues st) as [|j l] eqn:E;
      [discriminate|].
    assert (Hi : In j (StatusAlertAggregated.allStatusIssues st))
      by (rewrite E; now left).
    apply filter_In in Hi as [Hi Hf].
    apply andb_true_iff in Hf as [Ht Hd]. apply negb_true_iff in Hd.
    rewrite (status_group_shown st now j Hi Ht Hd) in Hb.
    injection Hb as <-. simpl. rewrite E. repeat split; try discriminate.
    rewrite <- E. apply Forall_forall. intros k Hk.
    apply filter_In in Hk as [Hk Hf].
    apply andb_true_iff in Hf as [_ Hf]. apply negb_true_iff in Hf.
    now split.
  - destruct (getActiveIssue st) as [issue|] eqn:Ea.
    + destruct (first_notice_shown st now Ea Hs) as [Hn Eb].
      rewrite Eb in Hb. injection Hb as <-. simpl.
      repeat split; try discriminate; try congruence.
      constructor; [|constructor]. now apply getActiveIssue_Some.
    + apply (aggregated_banner_None st now) in Ea. congruence.
Qed.

Lemma seen_evaluate (now : Z) (i : Instance) :
  seen (evaluate now i) = refs i.
Proof.
  unfold seen, evaluate. simpl. now destruct (refs i).
Qed.

(** The getters read the notices and the stored ids, nothing else. *)
Lemma getters_read (st st' : State) :
  issues st = issues st' ->
  dismissedAlerts st = dismissedAlerts st' ->
  getActiveIssue st = getActiveIssue st' /\
  StatusAlertAggregated.allStatusIssues st
  = StatusAlertAggregated.allStatusIssues st' /\
  StatusAlertAggregated.alertType st = StatusAlertAggregated.alertType st'.
Proof.
  intros Ei Ed.
  assert (Ea : getActiveIssue st = getActiveIssue st').
  { unfold getActiveIssue, isAlertDismissed. now rewrite Ei, Ed. }
  assert (El : StatusAlertAggregated.allStatusIssues st
               = StatusAlertAggregated.allStatusIssues st').
  { unfold StatusAlertAggregated.allStatusIssues, isAlertDismissed.
    now rewrite Ei, Ed. }
  repeat split; [exact Ea | exact El |].
  unfold StatusAlertAggregated.alertType, StatusAlertAggregated.hasStatusAlert,
    StatusAlertAggregated.activeIssue.
  now rewrite Ea, El.
Qed.

Lemma seen_handleDismiss_aggregated (i : Instance) :
  issues (seen (StatusAlertAggregated.handleDismiss i)) = issues (seen i) /\
  dismissedAlerts (seen (StatusAlertAggregated.handleDismiss i))
  = dismissedAlerts (seen i).
Proof.
  unfold StatusAlertAggregated.handleDismiss, seen, dismissedAlerts. simpl.
  split; [|reflexivity].
  destruct (StatusAlertAggregated.alertType _).
  - destruct (StatusAlertAggregated.activeIssue _);
      [apply issues_dismissAlert | reflexivity].
  - apply fold_dismiss_issues.
  - destruct (StatusAlertAggregated.activeIssue _);
      [apply issues_dismissAlert | reflexivity].
Qed.

Lemma dismissAlert_stored (a : Z) (st : State) :
  isAlertDismissed st a = true -> isDismissed st = true ->
  dismissAlert a st = st.
Proof.
  unfold dismissAlert, isAlertDismissed. intros -> Hd.
  destruct st. simpl in *. now subst.
Qed.

Lemma fold_dismiss_stored (l : list StatusIssue) (st : State) :
  Forall (fun issue => isAlertDismissed st (id issue) = true) l ->
  isDismissed st = true ->
  List.fold_left (fun s issue => dismissAlert (id issue) s) l st = st.
Proof.
  induction l as [|j l IH]; intros Hf Hd; [reflexivity|].
  inversion Hf; subst. simpl. rewrite dismissAlert_stored by assumption.
  now apply IH.
Qed.

Lemma isDismissed_dismissAlert (a : Z) (st : State) :
  isDismissed (dismissAlert a st) = true.
Proof.
  unfold dismissAlert. now destruct (includesNum (dismissedAlerts st) a).
Qed.

Lemma fold_dismiss_isDismissed (l : list StatusIssue) (st : State) :
  l <> [] ->
  isDismissed (List.fold_left (fun s issue => dismissAlert (id issue) s) l st)
  = true.
Proof.
  revert st. induction l as [|j l IH]; intros st Hne; [congruence|].
  simpl. destruct l as [|k l]; [apply isDismissed_dismissAlert|].
  apply IH. discriminate.
Qed.

Lemma fold_dismiss_all (l : list StatusIssue) (st : State) :
  Forall (fun issue =>
            isAlertDismissed
              (List.fold_left (fun s j => dismissAlert (id j) s) l st)
              (id issue) = true) l.
Proof.
  apply Forall_forall. intros issue Hi. rewrite fold_dismiss_lookup.
  assert (Hex : existsb (fun j => Z.eqb (id issue) (id j)) l = true).
  { apply existsb_exists. exists issue. split; [exact Hi | apply Z.eqb_refl]. }
  now rewrite Hex.
Qed.

(** X24. Dismissing a status banner of the aggregated variant stores
    the id of every notice of the group. The bindings of that component
    are not run again, so they keep the group; once they are run again,
    and if no stored id was removed since they were run before, they
    find no status notice pending. The fetched notices are not touched
    and the banner is hidden. *)
Theorem status_dismiss_clears_group (i : Instance) :
  StatusAlertAggregated.hasStatusAlert (seen i) = true ->
  (forall x, isAlertDismissed (seen i) x = true ->
             isAlertDismissed (refs i) x = true) ->
  Forall (fun issue =>
            isAlertDismissed (refs (StatusAlertAggregated.handleDismiss i))
                             (id issue) = true)
         (StatusAlertAggregated.allStatusIssues (seen i)) /\
  StatusAlertAggregated.allStatusIssues
    (seen (StatusAlertAggregated.handleDismiss i))
  = StatusAlertAggregated.allStatusIssues (seen i) /\
  (forall now,
     StatusAlertAggregated.allStatusIssues
       (seen (evaluate now (StatusAlertAggregated.handleDismiss i))) = []) /\
  issues (refs (StatusAlertAggregated.handleDismiss i)) = issues (refs i) /\
  isVisible (StatusAlertAggregated.handleDismiss i) = false.
Proof.
  intros Hs Hgrow.
  assert (Er : refs (StatusAlertAggregated.handleDismiss i)
               = List.fold_left (fun s issue => dismissAlert (id issue) s)
                   (StatusAlertAggregated.allStatusIssues (seen i)) (refs i)).
  { unfold StatusAlertAggregated.handleDismiss,
      StatusAlertAggregated.alertType. now rewrite Hs. }
  destruct (seen_handleDismiss_aggregated i) as [Ei Ed].
  repeat split.
  - rewrite Er. apply fold_dismiss_all.
  - now apply getters_read.
  - intros now. rewrite seen_evaluate, Er.
    unfold StatusAlertAggregated.allStatusIssues.
    rewrite fold_dismiss_issues. apply filter_nil. intros issue Hi.
    rewrite fold_dismiss_lookup.
    destruct (includesStr (labelNames (labels issue)) (lit "status")) eqn:Et;
      [|reflexivity].
    destruct (isAlertDismissed (seen i) (id issue)) eqn:Ese.
    + rewrite (Hgrow _ Ese). now rewrite orb_true_r.
    + assert (Hin : In issue (StatusAlertAggregated.allStatusIssues (seen i))).
      { apply filter_In. split; [exact Hi | now rewrite Et, Ese]. }
      assert (Hex : existsb (fun j => Z.eqb (id issue) (id j))
                      (StatusAlertAggregated.allStatusIssues (seen i)) = true).
      { apply existsb_exists. exists issue. split; [exact Hin|].
        apply Z.eqb_refl. }
      fold (StatusAlertAggregated.allStatusIssues (seen i)).
      now rewrite Hex.
  - rewrite Er. apply fold_dismiss_issues.
Qed.

(** X25. Dismissing a banner makes progress once: in either variant,
    when nothing was dismissed since the bindings were run and a banner
    is rendered, [handleDismiss] leaves strictly fewer active notices.
    A second [handleDismiss] on the same component reads the same
    bindings and changes nothing in the store. *)
Theorem dismissing_makes_progress (i : Instance) :
  seenStorage i = sessionStorage (refs i) ->
  (StatusAlertAggregated.rendered i <> None ->
   (List.length
      (getAllActiveIssues (refs (StatusAlertAggregated.handleDismiss i)))
    < List.length (getAllActiveIssues (refs i)))%nat) /\
  (StatusAlertSingle.rendered i <> None ->
   (List.length
      (getAllActiveIssues (refs (StatusAlertSingle.handleDismiss i)))
    < List.length (getAllActiveIssues (refs i)))%nat) /\
  refs (StatusAlertAggregated.handleDismiss
          (StatusAlertAggregated.handleDismiss i))
  = refs (StatusAlertAggregated.handleDismiss i) /\
  refs (StatusAlertSingle.handleDismiss (StatusAlertSingle.handleDismiss i))
  = refs (StatusAlertSingle.handleDismiss i).
Proof.
  intros Hfresh.
  assert (Eseen : seen i = refs i).
  { unfold seen. rewrite Hfresh. now destruct (refs i). }
  assert (Hone : forall issue,
             getActiveIssue (refs i) = Some issue ->
             (List.length
                (getAllActiveIssues (dismissAlert (id issue) (refs i)))
              < List.length (getAllActiveIssues (refs i)))%nat).
  { intros issue Ea. rewrite getAllActiveIssues_dismissAlert.
    apply filter_shorter with (x := issue).
    - apply getActiveIssue_Some in Ea as [Hi Hd].
      apply filter_In. now rewrite Hd.
    - now rewrite Z.eqb_refl. }
  split; [|split; [|split]].
  - unfold StatusAlertAggregated.rendered.
    destruct (isVisible i && negb (isLoading (refs i))); [|congruence].
    rewrite Eseen. intros Hb.
    unfold StatusAlertAggregated.handleDismiss. rewrite Eseen. simpl.
    destruct (StatusAlertAggregated.hasStatusAlert (refs i)) eqn:Hs.
    + unfold StatusAlertAggregated.alertType. rewrite Hs.
      pose proof Hs as Hs'.
      unfold StatusAlertAggregated.hasStatusAlert in Hs'.
      destruct (StatusAlertAggregated.allStatusIssues (refs i))
        as [|j l] eqn:E; [discriminate|].
      assert (Hi : In j (StatusAlertAggregated.allStatusIssues (refs i)))
        by (rewrite E; now left).
      apply allStatusIssues_active in Hi as [Hi _].
      unfold getAllActiveIssues at 1. rewrite fold_dismiss_issues.
      rewrite (filter_ext _
                 (fun issue =>
                    negb (isAlertDismissed (refs i) (id issue))
                    && negb (existsb (fun k => Z.eqb (id issue) (id k))
                                     (j :: l)))).
      2:{ intros issue. rewrite fold_dismiss_lookup.
          now destruct (existsb _ (j :: l)),
                       (isAlertDismissed (refs i) (id issue)). }
      rewrite <- filter_filter_and. fold (getAllActiveIssues (refs i)).
      apply filter_shorter with (x := j); [exact Hi|].
      simpl. now rewrite Z.eqb_refl.
    + destruct (getActiveIssue (refs i)) as [issue|] eqn:Ea.
      * destruct (first_notice_shown (refs i) 0 Ea Hs) as [Hn _].
        unfold StatusAlertAggregated.alertType,
          StatusAlertAggregated.activeIssue.
        rewrite Hs, Ea.
        destruct (getAlertType (labels issue)); try congruence;
          now apply Hone.
      * now apply (aggregated_banner_None (refs i) (seenClock i)) in Ea.
  - unfold StatusAlertSingle.rendered.
    destruct (isVisible i && negb (isLoading (refs i))); [|congruence].
    rewrite Eseen.
    unfold StatusAlertSingle.banner, StatusAlertSingle.handleDismiss,
      StatusAlertSingle.activeIssue.
    rewrite Eseen.
    destruct (getActiveIssue (refs i)) as [issue|] eqn:Ea; [|congruence].
    intros _. now apply Hone.
  - destruct (seen_handleDismiss_aggregated i) as [Ei Ed].
    destruct (getters_read _ _ Ei Ed) as (Ea & El & Et).
    unfold StatusAlertAggregated.handleDismiss at 1. cbn [refs].
    unfold StatusAlertAggregated.activeIssue. rewrite Et, El, Ea.
    unfold StatusAlertAggregated.handleDismiss. cbn [refs].
    unfold StatusAlertAggregated.activeIssue.
    destruct (StatusAlertAggregated.alertType (seen i)).
    + destruct (getActiveIssue (seen i)) as [issue|]; [|reflexivity].
      apply dismissAlert_stored; [|apply isDismissed_dismissAlert].
      rewrite isAlertDismissed_dismissAlert. now rewrite Z.eqb_refl.
    + destruct (StatusAlertAggregated.allStatusIssues (seen i)) as [|k l] eqn:E;
        [reflexivity|].
      apply fold_dismiss_stored;
        [apply fold_dismiss_all | apply fold_dismiss_isDismissed; discriminate].
    + destruct (getActiveIssue (seen i)) as [issue|]; [|reflexivity].
      apply dismissAlert_stored; [|apply isDismissed_dismissAlert].
      rewrite isAlertDismissed_dismissAlert. now rewrite Z.eqb_refl.
  - assert (E1 : StatusAlertSingle.handleDismiss i
                 = match getActiveIssue (seen i) with
                   | Some issue =>
                       {| refs := dismissAlert (id issue) (refs i);
                          seenStorage := seenStorage i;
                          seenClock := seenClock i;
                          isVisible := false |}
                   | None => i
                   end) by reflexivity.
    destruct (getActiveIssue (seen i)) as [issue|] eqn:Ea.
    + rewrite E1.
      set (j := {| refs := dismissAlert (id issue) (refs i);
                   seenStorage := seenStorage i;
                   seenClock := seenClock i;
                   isVisible := false |}).
      assert (Ea' : getActiveIssue (seen j) = Some issue).
      { rewrite <- Ea. apply getters_read.
        - unfold seen. simpl. apply issues_dismissAlert.
        - reflexivity. }
      unfold StatusAlertSingle.handleDismiss, StatusAlertSingle.activeIssue.
      rewrite Ea'. subst j. cbn [refs].
      apply dismissAlert_stored; [|apply isDismissed_dismissAlert].
      rewrite isAlertDismissed_dismissAlert. now rewrite Z.eqb_refl.
    + rewrite E1.
      unfold StatusAlertSingle.handleDismiss, StatusAlertSingle.activeIssue.
      now rewrite Ea.
Qed.

(** X26. A banner that the aggregated variant renders is styled as
    upcoming only for a maintenance notice whose start is a valid
    instant after the clock reading that the bindings took when they
    were run; a status banner never is. *)
Theorem upcoming_banner_is_future_maintenance (i : Instance) (b : Banner) :
  StatusAlertAggregated.rendered i = Some b ->
  bannerUpcoming b = true ->
  bannerType b = maintenance /\
  exists issue s,
    getActiveIssue (seen i) = Some issue /\
    bannerIssues b = [issue] /\
    start (parseIssueBody (body issue)) = Some (Instant s) /\
    (seenClock i < s)%Z.
Proof.
  unfold StatusAlertAggregated.rendered.
  destruct (isVisible i && negb (isLoading (refs i))); [|discriminate].
  generalize (seen i) (seenClock i). clear i. intros st now Hb Hu.
  destruct (StatusAlertAggregated.hasStatusAlert st) eqn:Hs.
  - destruct (hasStatusAlert_active st Hs) as (j & Ea).
    unfold StatusAlertAggregated.banner,
      StatusAlertAggregated.isMaintenanceUpcoming,
      StatusAlertAggregated.alertType in Hb.
    rewrite Hs in Hb. simpl in Hb. injection Hb as <-. simpl in Hu.
    now destruct (StatusAlertAggregated.parsedInfo st).
  - destruct (getActiveIssue st) as [issue|] eqn:Ea.
    + destruct (first_notice_shown st now Ea Hs) as [_ Eb].
      rewrite Eb in Hb. injection Hb as <-. simpl in *.
      destruct (getAlertType (labels issue)); try discriminate.
      split; [reflexivity|]. unfold isUpcoming in Hu.
      destruct (start (parseIssueBody (body issue))) as [[|s]|] eqn:Es;
        try discriminate.
      exists issue, s. repeat split; try assumption. now apply Z.ltb_lt.
    + apply (aggregated_banner_None st now) in Ea. congruence.
Qed.

(** X27. The guards that show the banner ask again whether the active
    issue is dismissed; it never is, so each guard says just that a
    banner exists. *)
Theorem show_guards (st : State) (now : Z) :
  StatusAlertAggregated.mountedGuard st
  = notNull (StatusAlertAggregated.banner now st) /\
  StatusAlertAggregated.showGuard st
  = notNull (StatusAlertAggregated.banner now st) /\
  StatusAlertSingle.showGuard st
  = notNull (StatusAlertSingle.banner now st).
Proof.
  assert (Hd : forall issue, getActiveIssue st = Some issue ->
                             negb (isAlertDismissed st (id issue)) = true).
  { intros issue Ea. apply getActiveIssue_Some in Ea as [_ ->]. reflexivity. }
  unfold StatusAlertAggregated.mountedGuard, StatusAlertAggregated.showGuard,
    StatusAlertSingle.showGuard, StatusAlertAggregated.banner,
    StatusAlertSingle.banner, StatusAlertAggregated.activeIssue,
    StatusAlertSingle.activeIssue.
  destruct (getActiveIssue st) as [issue|] eqn:Ea.
  - rewrite (Hd issue eq_refl).
    destruct (StatusAlertAggregated.hasStatusAlert st); repeat split.
  - destruct (StatusAlertAggregated.hasStatusAlert st) eqn:Hs.
    + destruct (hasStatusAlert_active st Hs) as (i & Ei). congruence.
    + repeat split.
Qed.
End Components.

Lemma variants_agree_without_status_witness :
  @StatusAlertAggregated.banner SampleHost.host Samples.duringWindow
                                (Samples.fresh [Samples.window])
  = @StatusAlertSingle.banner SampleHost.host Samples.duringWindow
                              (Samples.fresh [Samples.window]).
Proof.
  exact (@variants_agree_without_status SampleHost.host
           (Samples.fresh [Samples.window]) Samples.duringWindow eq_refl).
Defined.

Lemma banner_issues_active_witness :
  Forall (fun issue =>
            In issue [Samples.window; Samples.incident]
            /\ isAlertDismissed
                 (seen (Samples.onScreen Samples.duringWindow
                          [Samples.window; Samples.incident]))
                 (id issue) = false)
         [Samples.incident].
Proof.
  exact (proj1 (proj2
    (@banner_issues_active SampleHost.host
       (Samples.onScreen Samples.duringWindow
          [Samples.window; Samples.incident])
       {| bannerType := status; bannerIssues := [Samples.incident];
          bannerUpcoming := false |}
       eq_refl))).
Defined.

Lemma status_dismiss_clears_group_witness :
  isAlertDismissed
    (refs (@StatusAlertAggregated.handleDismiss SampleHost.host
             (Samples.onScreen Samples.duringWindow
                [Samples.window; Samples.incident])))
    (id Samples.incident) = true /\
  StatusAlertAggregated.allStatusIssues (H := SampleHost.host)
    (seen (evaluate Samples.afterWindow
             (@StatusAlertAggregated.handleDismiss SampleHost.host
                (Samples.onScreen Samples.duringWindow
                   [Samples.window; Samples.incident])))) = [].
Proof.
  destruct (@status_dismiss_clears_group SampleHost.host
              (Samples.onScreen Samples.duringWindow
                 [Samples.window; Samples.incident])
              eq_refl) as (Hf & _ & He & _).
  - intros x Hx. exact Hx.
  - split; [|apply He].
    inversion Hf as [|? ? Hi _]. exact Hi.
Defined.

Lemma dismissing_makes_progress_witness :
  (List.length
     (getAllActiveIssues
        (refs (@StatusAlertAggregated.handleDismiss SampleHost.host
                 (Samples.onScreen Samples.duringWindow
                    [Samples.window; Samples.incident]))))
   < List.length
       (getAllActiveIssues
          (refs (Samples.onScreen Samples.duringWindow
                   [Samples.window; Samples.incident]))))%nat.
Proof.
  refine (proj1 (@dismissing_makes_progress SampleHost.host
                   (Samples.onScreen Samples.duringWindow
                      [Samples.window; Samples.incident])
                   eq_refl) _).
  discriminate.
Defined.

Lemma upcoming_banner_is_future_maintenance_witness :
  exists issue s,
    getActiveIssue (seen (Samples.onScreen 1769000000000 [Samples.window]))
    = Some issue /\
    [Samples.window] = [issue] /\
    start (@parseIssueBody SampleHost.host (body issue))
    = Some (Instant s) /\
    (1769000000000 < s)%Z.
Proof.
  exact (proj2 (@upcoming_banner_is_future_maintenance SampleHost.host
                  (Samples.onScreen 1769000000000 [Samples.window])
                  {| bannerType := maintenance;
                     bannerIssues := [Samples.window];
                     bannerUpcoming := true |}
                  eq_refl eq_refl)).
Defined.

(* ===================================================================== *)
(** * Properties of the template expressions *)
(* ===================================================================== *)

Import StatusAlertTemplate.

(** X28. The collapsed status view accounts for every service: it shows
    the first four at most, and the tags shown and the number on the
    badge add up to the number of services. *)
Theorem status_preview_counts (A : Type) (services : list A) :
  (List.length (statusTags services) <= 4)%nat /\
  (List.length (statusTags services) + badge (statusMore services)
   = List.length services)%nat /\
  exists rest, services = statusTags services ++ rest.
Proof.
  unfold statusTags, statusMore, badge. rewrite length_firstn.
  repeat split.
  - lia.
  - destruct (Nat.ltb_spec 4 (List.length services)); lia.
  - exists (List.skipn 4 services). symmetry. apply firstn_skipn.
Qed.

(** X29. The collapsed maintenance view shows two names of each list at
    most and counts the rest from four on, so it can hide names without
    saying so: the tags shown and the number on the badge never exceed
    the number of names, and they add up to it exactly when both lists
    have at most two names or both have at least two. *)
Theorem maintenance_preview_counts (p : option ParsedStatusInfo) :
  let down := lengthOrZero (downOf p) in
  let degraded := lengthOrZero (degradedOf p) in
  let shown := (List.length (downTags p) + List.length (degradedTags p))%nat in
  (shown <= 4)%nat /\
  (shown + badge (maintenanceMore p) <= down + degraded)%nat /\
  ((shown + badge (maintenanceMore p) = down + degraded)%nat
   <-> (down <= 2 /\ degraded <= 2)%nat \/ (2 <= down /\ 2 <= degraded)%nat).
Proof.
  intros down degraded shown. subst shown.
  unfold downTags, degradedTags, maintenanceMore, badge.
  rewrite !length_firstn.
  assert (Ed : List.length (orEmpty (downOf p)) = lengthOrZero (downOf p))
    by now destruct (downOf p).
  assert (Eg : List.length (orEmpty (degradedOf p))
               = lengthOrZero (degradedOf p))
    by now destruct (degradedOf p).
  rewrite Ed, Eg. fold down degraded.
  destruct (Nat.ltb_spec 4 (down + degraded)); lia.
Qed.

Lemma filter_Forall (A : Type) (f : A -> bool) (l : list A) :
  Forall (fun x => f x = true) (List.filter f l).
Proof.
  apply Forall_forall. intros x Hx. now apply filter_In in Hx.
Qed.

Lemma firstn_Subseq (A : Type) (n : nat) (l : list A) :
  Subseq (List.firstn n l) l.
Proof.
  revert n. induction l as [|x l IH]; intros [|n]; simpl;
    try constructor; auto.
  clear IH. induction l; constructor; auto.
Qed.

Lemma Subseq_trans (A : Type) (a b c : list A) :
  Subseq a b -> Subseq b c -> Subseq a c.
Proof.
  intros Hab Hbc. revert a Hab.
  induction Hbc as [|x r l Hrl IH|x r l Hrl IH]; intros a Hab.
  - exact Hab.
  - inversion Hab; subst; constructor; auto.
  - constructor. auto.
Qed.

Lemma Subseq_Forall (A : Type) (P : A -> Prop) (a b : list A) :
  Subseq a b -> Forall P b -> Forall P a.
Proof.
  induction 1; intros Hf; auto; inversion Hf; subst; auto.
Qed.

(** X30. The description preview of the single-issue variant is shown
    unless the description is empty. It is at most 250 code units of
    the description, in order and without [#], [*] and the backquote,
    and then three dots. *)
Theorem description_preview_spec (p : option ParsedStatusInfo) :
  (descriptionPreview p = None
   <-> match p with Some q => description q = [] | None => True end) /\
  forall t, descriptionPreview p = Some t ->
    exists q u,
      p = Some q /\ t = u ++ lit "..." /\
      (List.length u <= 250)%nat /\
      Forall (fun c => isMarkup c = false) u /\
      Subseq u (description q).
Proof.
  unfold descriptionPreview. split.
  - destruct p as [q|]; [|tauto].
    destruct (description q); split; congruence.
  - intros t Ht. destruct p as [q|]; [|discriminate].
    exists q, (List.firstn 250
                 (List.filter (fun c => negb (isMarkup c)) (description q))).
    assert (Et : t = List.firstn 250
                       (List.filter (fun c => negb (isMarkup c))
                                    (description q)) ++ lit "...").
    { destruct (description q); [discriminate | congruence]. }
    repeat split.
    + exact Et.
    + rewrite length_firstn. lia.
    + apply (Subseq_Forall (firstn_Subseq _ _)).
      eapply Forall_impl; [|apply filter_Forall].
      intros c Hc. now apply negb_true_iff in Hc.
    + eapply Subseq_trans; [apply firstn_Subseq | apply filter_Subseq].
Qed.
